(** * cachito.workers.scm: fetching a Git reference into a cached archive

    A shallow embedding of [cachito/workers/scm.py] (classes [SCM] and
    [Git]) together with a model of the parts of the Python runtime the
    module talks to: [urllib.parse], [os.path], [os], [glob], [tarfile],
    [tempfile] and GitPython.  The methods of [SCM] and [Git] are written
    in a state-and-exception monad over the object's memo fields and the
    world (file system, process environment, remotes). *)

From Stdlib Require Import ZArith Lia Bool Ascii String.
From stdpp Require Import base option list strings gmap.


Open Scope list_scope.

#[local] Arguments String.append !_ _ / : simpl nomatch.

(** ** Python [str] operations used by the module *)

Module Str.

Definition chr_slash : ascii := "/"%char.

(** [s.lstrip(c)] for a one-character argument. *)
Fixpoint lstrip (c : ascii) (s : string) : string :=
  match s with
  | EmptyString => EmptyString
  | String a r => if Ascii.eqb a c then lstrip c r else s
  end.

(** [s.rstrip(c)] for a one-character argument. *)
Fixpoint rstrip (c : ascii) (s : string) : string :=
  match s with
  | EmptyString => EmptyString
  | String a r =>
      match rstrip c r with
      | EmptyString => if Ascii.eqb a c then EmptyString else String a EmptyString
      | r' => String a r'
      end
  end.

(** [s.strip(c)]. *)
Definition strip (c : ascii) (s : string) : string := rstrip c (lstrip c s).

(** [s.startswith(p)]. *)
Definition startswith (p s : string) : bool := String.prefix p s.

(** [s.endswith(suf)]: some tail of [s] is [suf]. *)
Fixpoint endswith (suf s : string) : bool :=
  String.eqb s suf
  || match s with
     | EmptyString => false
     | String _ r => endswith suf r
     end.

(** [s[:-k]] for [k > 0]. *)
Definition drop_last (k : nat) (s : string) : string :=
  String.substring 0 (String.length s - k) s.

(** [s.split(c)] for a one-character separator: never the empty list. *)
Fixpoint split (c : ascii) (s : string) : list string :=
  match s with
  | EmptyString => [EmptyString]
  | String a r =>
      if Ascii.eqb a c then EmptyString :: split c r
      else match split c r with
           | h :: t => String a h :: t
           | [] => [String a EmptyString]
           end
  end.

(** [c in s]. *)
Fixpoint contains (c : ascii) (s : string) : bool :=
  match s with
  | EmptyString => false
  | String a r => Ascii.eqb a c || contains c r
  end.

(** [s.find(c)]: [None] stands for Python's [-1]. *)
Fixpoint find (c : ascii) (s : string) : option nat :=
  match s with
  | EmptyString => None
  | String a r => if Ascii.eqb a c then Some 0 else S <$> find c r
  end.

(** [s.rfind(c)]. *)
Fixpoint rfind (c : ascii) (s : string) : option nat :=
  match s with
  | EmptyString => None
  | String a r =>
      match rfind c r with
      | Some i => Some (S i)
      | None => if Ascii.eqb a c then Some 0 else None
      end
  end.

(** [s[:i]] and [s[i:]] for [0 <= i]. *)
Definition take (i : nat) (s : string) : string := String.substring 0 i s.
Fixpoint drop (i : nat) (s : string) : string :=
  match i, s with
  | O, _ => s
  | S j, String _ r => drop j r
  | S _, EmptyString => EmptyString
  end.

(** [s.split(c, 1)] as the pair (before, after); [None] when [c] is absent. *)
Fixpoint partition (c : ascii) (s : string) : option (string * string) :=
  match s with
  | EmptyString => None
  | String a r =>
      if Ascii.eqb a c then Some (EmptyString, r)
      else (fun '(h, t) => (String a h, t)) <$> partition c r
  end.

(** [s.replace(c, "")]. *)
Fixpoint remove (c : ascii) (s : string) : string :=
  match s with
  | EmptyString => EmptyString
  | String a r => if Ascii.eqb a c then remove c r else String a (remove c r)
  end.

Definition is_upper (a : ascii) : bool :=
  let n := nat_of_ascii a in (65 <=? n)%nat && (n <=? 90)%nat.
Definition is_lower (a : ascii) : bool :=
  let n := nat_of_ascii a in (97 <=? n)%nat && (n <=? 122)%nat.
Definition is_digit (a : ascii) : bool :=
  let n := nat_of_ascii a in (48 <=? n)%nat && (n <=? 57)%nat.
Definition is_alpha (a : ascii) : bool := is_upper a || is_lower a.

Definition lower_char (a : ascii) : ascii :=
  if is_upper a then ascii_of_nat (nat_of_ascii a + 32) else a.

(** [s.lower()] on ASCII text. *)
Fixpoint lower (s : string) : string :=
  match s with
  | EmptyString => EmptyString
  | String a r => String (lower_char a) (lower r)
  end.

Fixpoint forallb (p : ascii -> bool) (s : string) : bool :=
  match s with
  | EmptyString => true
  | String a r => p a && forallb p r
  end.

(** Truth value of a string: empty strings are false. *)
Definition truthy (s : string) : bool :=
  match s with EmptyString => false | _ => true end.

(** [sep.join(l)]. *)
Fixpoint join (sep : string) (l : list string) : string :=
  match l with
  | [] => EmptyString
  | [x] => x
  | x :: r => x +:+ sep +:+ join sep r
  end.

End Str.

(** ** Exceptions and results *)

(** The exceptions that can leave the methods of the module.  The module
    defines none of its own: [CachitoError] is the application's domain
    error; the others are raised by the libraries it calls. *)
Inductive Exn : Type :=
  | CachitoError (msg : string)
  | ValueError (msg : string)
  | FileNotFoundError (path : string)
  | NotADirectoryError (path : string)
  | IsADirectoryError (path : string)
  | FileExistsError (path : string)
  | ReadError (msg : string)
  | OutsideDestinationError (member : string)
  | NoSuchPathError (path : string)
  | InvalidGitRepositoryError (path : string)
  | GitCommandError (msg : string)
  | BadName (rev : string).

Inductive Res (A : Type) : Type :=
  | Ok (a : A)
  | Err (e : Exn).
Arguments Ok {A} a.
Arguments Err {A} e.

Definition is_domain_error (e : Exn) : bool :=
  match e with CachitoError _ => true | _ => false end.

(** ** [urllib.parse.urlparse]

    The splitting algorithm of CPython's [urllib.parse] on ASCII text:
    leading control characters and spaces are dropped, tab and newline
    characters removed, then scheme, network location, fragment, query and
    (for the schemes of [uses_params]) the parameters of the last path
    segment are split off.  A network location with unbalanced brackets
    raises [ValueError]; the validation of what stands between balanced
    brackets is not part of the model. *)

Module urllib_parse.

Record ParseResult : Type := {
  scheme : string;
  netloc : string;
  path : string;
  params : string;
  query : string;
  fragment : string
}.

Definition uses_params : list string :=
  [""; "ftp"; "hdl"; "prospero"; "http"; "imap"; "https"; "shttp"; "rtsp";
   "rtspu"; "sip"; "sips"; "mms"; "sftp"; "tel"].

Definition scheme_char (a : ascii) : bool :=
  Str.is_alpha a || Str.is_digit a
  || Ascii.eqb a "+" || Ascii.eqb a "-" || Ascii.eqb a ".".

Definition c0_or_space (a : ascii) : bool := (nat_of_ascii a <=? 32)%nat.

Fixpoint lstrip_c0 (s : string) : string :=
  match s with
  | EmptyString => EmptyString
  | String a r => if c0_or_space a then lstrip_c0 r else s
  end.

Definition remove_unsafe (s : string) : string :=
  Str.remove (ascii_of_nat 10) (Str.remove (ascii_of_nat 13) (Str.remove (ascii_of_nat 9) s)).

(** The scheme and the rest, when the text before the first colon is a
    scheme. *)
Definition split_scheme (url : string) : string * string :=
  match Str.find ":" url, url with
  | Some (S i), String a _ =>
      if Str.is_alpha a && Str.forallb scheme_char (Str.take (S i) url)
      then (Str.lower (Str.take (S i) url), Str.drop (S (S i)) url)
      else (EmptyString, url)
  | _, _ => (EmptyString, url)
  end.

Definition netloc_delim (a : ascii) : bool :=
  Ascii.eqb a "/" || Ascii.eqb a "?" || Ascii.eqb a "#".

(** [_splitnetloc(url, 2)] applied to what follows the two slashes. *)
Fixpoint splitnetloc (s : string) : string * string :=
  match s with
  | EmptyString => (EmptyString, EmptyString)
  | String a r =>
      if netloc_delim a then (EmptyString, s)
      else let '(n, u) := splitnetloc r in (String a n, u)
  end.

Definition split_netloc (url : string) : string * string :=
  match url with
  | String "/" (String "/" r) => splitnetloc r
  | _ => (EmptyString, url)
  end.

Definition brackets_ok (nl : string) : bool :=
  Bool.eqb (Str.contains "[" nl) (Str.contains "]" nl).

(** [_splitparams]. *)
Definition splitparams (url : string) : string * string :=
  let from := match Str.rfind "/" url with Some i => i | None => 0%nat end in
  match Str.find ";" (Str.drop from url) with
  | Some j => (Str.take (from + j) url, Str.drop (S (from + j)) url)
  | None => (url, EmptyString)
  end.

Definition urlparse (url0 : string) : Res ParseResult :=
  let url := remove_unsafe (lstrip_c0 url0) in
  let '(sch, url) := split_scheme url in
  let '(nl, url) := split_netloc url in
  if negb (brackets_ok nl) then Err (ValueError "Invalid IPv6 URL")
  else
    let '(url, frag) :=
      match Str.partition "#" url with Some p => p | None => (url, EmptyString) end in
    let '(url, qry) :=
      match Str.partition "?" url with Some p => p | None => (url, EmptyString) end in
    let '(url, prm) :=
      if bool_decide (sch ∈ uses_params) && Str.contains ";" url
      then splitparams url else (url, EmptyString) in
    Ok {| scheme := sch; netloc := nl; path := url; params := prm;
          query := qry; fragment := frag |}.

End urllib_parse.

(** ** [os.path] (POSIX flavour) *)

Module os_path.

Definition isabs (p : string) : bool := Str.startswith "/" p.

(** One step of [join]: an absolute component discards what came before. *)
Definition join2 (a b : string) : string :=
  if Str.startswith "/" b then b
  else if negb (Str.truthy a) || Str.endswith "/" a then a +:+ b
  else a +:+ "/" +:+ b.

(** [os.path.join(a, *p)]. *)
Definition join (a : string) (p : list string) : string := foldl join2 a p.

(** The components kept by [normpath], most recent first. *)
Fixpoint norm_comps (initial_slashes : bool) (acc : list string) (comps : list string)
  : list string :=
  match comps with
  | [] => acc
  | c :: rest =>
      if String.eqb c "" || String.eqb c "." then norm_comps initial_slashes acc rest
      else if negb (String.eqb c "..") then norm_comps initial_slashes (c :: acc) rest
      else match acc with
           | [] => if initial_slashes then norm_comps initial_slashes acc rest
                   else norm_comps initial_slashes (c :: acc) rest
           | top :: below =>
               if String.eqb top ".." then norm_comps initial_slashes (c :: acc) rest
               else norm_comps initial_slashes below rest
           end
  end.

(** [os.path.normpath]. *)
Definition normpath (p : string) : string :=
  if negb (Str.truthy p) then "."
  else
    let slashes :=
      if Str.startswith "/" p then
        if Str.startswith "//" p && negb (Str.startswith "///" p) then "//" else "/"
      else "" in
    let comps := rev (norm_comps (Str.truthy slashes) [] (Str.split "/" p)) in
    let r := slashes +:+ Str.join "/" comps in
    if Str.truthy r then r else ".".

(** [os.path.abspath], given the current directory. *)
Definition abspath (cwd p : string) : string :=
  normpath (if isabs p then p else join cwd [p]).

(** [os.path.split]. *)
Definition split (p : string) : string * string :=
  let i := match Str.rfind "/" p with Some i => S i | None => 0%nat end in
  let head := Str.take i p in
  let tail := Str.drop i p in
  let head := if Str.truthy head && negb (Str.forallb (Ascii.eqb "/") head)
              then Str.rstrip "/" head else head in
  (head, tail).

End os_path.

(** ** The world the module runs in *)

(** A commit: its identifier and the tracked files of its tree. *)
Record Commit : Type := {
  c_sha : string;
  c_tree : list (string * string)
}.

(** The content of a [.git] directory: the configured [origin] remote, the
    revisions that resolve in this repository, the commit [HEAD] points at
    and the names recorded in the index. *)
Record GitDb : Type := {
  g_origin : option string;
  g_revs : list (string * Commit);
  g_head : option Commit;
  g_index : list string
}.

(** A directory tree of the temporary area.  A [.git] directory is a leaf. *)
#[warnings="-register-all"]
Inductive Node : Type :=
  | File (data : string)
  | Dir (children : list (string * Node))
  | GitDir (db : GitDb).

(** The members of a tar archive, in the order they were added. *)
Inductive MemberBody : Type :=
  | MDir
  | MFile (data : string)
  | MGit (db : GitDb).

Definition Member : Type := string * MemberBody.

(** What a regular file holds: a well-formed gzip-compressed tar archive,
    or bytes that are none (an empty or truncated file among them). *)
Inductive FileData : Type :=
  | TarGz (members : list Member)
  | Garbage (bytes : string).

Inductive Content : Type :=
  | CDir
  | CFile (d : FileData).

Record Inode : Type := {
  i_content : Content;
  i_ctime : Z
}.

(** Network operations, in the order they were attempted. *)
Inductive NetEvent : Type :=
  | NetClone (url : string)
  | NetFetch (url : string).

(** A location of the persistent file system: the names from the root
    down.  The root [[]] is always a directory. *)
Abbreviation Loc := (list string).

Record World : Type := {
  cachito_sources_dir : string;
  cwd : string;
  fs : gmap Loc Inode;
  clock : Z;
  environ : gmap string string;
  remotes : gmap string (list (string * Commit));
  net_log : list NetEvent;
  mkdtemp_suffix : string;
  tmp : option (list (string * Node))
}.

Definition with_fs (f : gmap Loc Inode) (w : World) : World :=
  {| cachito_sources_dir := cachito_sources_dir w; cwd := cwd w; fs := f;
     clock := clock w; environ := environ w; remotes := remotes w;
     net_log := net_log w; mkdtemp_suffix := mkdtemp_suffix w; tmp := tmp w |}.

Definition with_clock (c : Z) (w : World) : World :=
  {| cachito_sources_dir := cachito_sources_dir w; cwd := cwd w; fs := fs w;
     clock := c; environ := environ w; remotes := remotes w;
     net_log := net_log w; mkdtemp_suffix := mkdtemp_suffix w; tmp := tmp w |}.

Definition with_environ (e : gmap string string) (w : World) : World :=
  {| cachito_sources_dir := cachito_sources_dir w; cwd := cwd w; fs := fs w;
     clock := clock w; environ := e; remotes := remotes w;
     net_log := net_log w; mkdtemp_suffix := mkdtemp_suffix w; tmp := tmp w |}.

Definition with_net_log (l : list NetEvent) (w : World) : World :=
  {| cachito_sources_dir := cachito_sources_dir w; cwd := cwd w; fs := fs w;
     clock := clock w; environ := environ w; remotes := remotes w;
     net_log := l; mkdtemp_suffix := mkdtemp_suffix w; tmp := tmp w |}.

Definition with_tmp (t : option (list (string * Node))) (w : World) : World :=
  {| cachito_sources_dir := cachito_sources_dir w; cwd := cwd w; fs := fs w;
     clock := clock w; environ := environ w; remotes := remotes w;
     net_log := net_log w; mkdtemp_suffix := mkdtemp_suffix w; tmp := t |}.

(** ** The persistent file system: [os], [os.path] on the world *)

Module os.

Definition content_at (w : World) (loc : Loc) : option Content :=
  match loc with
  | [] => Some CDir
  | _ => i_content <$> fs w !! loc
  end.

Definition parent (loc : Loc) : Loc := removelast loc.

(** Following one path component from a directory. *)
Definition step (cur : Loc) (c : string) : Loc :=
  if String.eqb c "" || String.eqb c "." then cur
  else if String.eqb c ".." then parent cur
  else cur ++ [c].

Definition nonempty_comps (p : string) : Loc :=
  filter (fun c => c ≠ "") (Str.split "/" p).

Definition start_of (w : World) (p : string) : Loc :=
  if os_path.isabs p then [] else nonempty_comps (cwd w).

(** Path resolution: every component is looked up in a directory. *)
Fixpoint walk (w : World) (p : string) (cur : Loc) (comps : list string) : Res Loc :=
  match comps with
  | [] => Ok cur
  | c :: rest =>
      match content_at w cur with
      | Some CDir => walk w p (step cur c) rest
      | Some (CFile _) => Err (NotADirectoryError p)
      | None => Err (FileNotFoundError p)
      end
  end.

Definition resolve (w : World) (p : string) : Res Loc :=
  walk w p (start_of w p) (Str.split "/" p).

(** What stands at a path. *)
Definition stat (w : World) (p : string) : Res Content :=
  match resolve w p with
  | Ok loc =>
      match content_at w loc with
      | Some c => Ok c
      | None => Err (FileNotFoundError p)
      end
  | Err e => Err e
  end.

(** [os.path.exists]: failures of the lookup count as absence. *)
Definition path_exists (w : World) (p : string) : bool :=
  match stat w p with Ok _ => true | Err _ => false end.

(** [os.path.getctime]. *)
Definition getctime (w : World) (p : string) : Res Z :=
  match resolve w p with
  | Ok [] => Ok 0%Z
  | Ok loc =>
      match fs w !! loc with
      | Some i => Ok (i_ctime i)
      | None => Err (FileNotFoundError p)
      end
  | Err e => Err e
  end.

(** Creating or replacing the entry at a location stamps it with the
    clock, which then advances. *)
Definition put (loc : Loc) (c : Content) (w : World) : World :=
  with_clock (clock w + 1)
    (with_fs (<[loc := {| i_content := c; i_ctime := clock w |}]> (fs w)) w).

(** [os.makedirs(p, exist_ok=True)]: the directories along the path are
    created where they are missing. *)
Fixpoint mkdirs (w : World) (p : string) (cur : Loc) (comps : list string) : Res World :=
  match comps with
  | [] =>
      match content_at w cur with
      | Some CDir => Ok w
      | Some (CFile _) => Err (FileExistsError p)
      | None => Ok (put cur CDir w)
      end
  | c :: rest =>
      match content_at w cur with
      | Some CDir => mkdirs w p (step cur c) rest
      | Some (CFile _) => Err (NotADirectoryError p)
      | None => mkdirs (put cur CDir w) p (step cur c) rest
      end
  end.

Definition makedirs (w : World) (p : string) : Res World :=
  mkdirs w p (start_of w p) (Str.split "/" p).

(** Opening a file for writing creates or truncates it. *)
Definition open_w (w : World) (p : string) : Res (Loc * World) :=
  match resolve w p with
  | Ok loc =>
      match content_at w loc with
      | Some CDir => Err (IsADirectoryError p)
      | _ => Ok (loc, put loc (CFile (Garbage "")) w)
      end
  | Err e => Err e
  end.

(** Opening a file for reading. *)
Definition open_r (w : World) (p : string) : Res FileData :=
  match stat w p with
  | Ok CDir => Err (IsADirectoryError p)
  | Ok (CFile d) => Ok d
  | Err e => Err e
  end.

(** [os.listdir] of a location: the names directly below it. *)
Definition listdir (w : World) (loc : Loc) : list string :=
  omap (fun '(k, _) =>
          match last k with
          | Some n => if bool_decide (parent k = loc) then Some n else None
          | None => None
          end)
       (map_to_list (fs w)).

End os.

(** ** State and exceptions *)

(** A computation over a state [S] that returns a value or raises; the
    state reached is kept in both cases, as Python keeps its effects when
    an exception propagates. *)
Definition ST (S A : Type) : Type := S -> Res A * S.

Definition ret {S A} (a : A) : ST S A := fun s => (Ok a, s).
Definition raise {S A} (e : Exn) : ST S A := fun s => (Err e, s).
Definition bind {S A B} (m : ST S A) (k : A -> ST S B) : ST S B :=
  fun s => match m s with
           | (Ok a, s') => k a s'
           | (Err e, s') => (Err e, s')
           end.
Definition get {S} : ST S S := fun s => (Ok s, s).
Definition put {S} (s : S) : ST S unit := fun _ => (Ok tt, s).
Definition modify {S} (f : S -> S) : ST S unit := fun s => (Ok tt, f s).
Definition of_res {S A} (r : Res A) : ST S A := fun s => (r, s).

(** [try: m except: raise h(e)] with a bare [except]. *)
Definition try_except {S A} (m : ST S A) (h : Exn -> ST S A) : ST S A :=
  fun s => match m s with
           | (Ok a, s') => (Ok a, s')
           | (Err e, s') => h e s'
           end.

(** [try: m finally: f]. *)
Definition try_finally {S A} (m : ST S A) (f : S -> S) : ST S A :=
  fun s => let '(r, s') := m s in (r, f s').

Declare Scope st_scope.
Delimit Scope st_scope with st.
Notation "'let*' x ':=' m 'in' k" := (bind m (fun x => k))
  (at level 10, x pattern, m at level 100, k at level 200) : st_scope.
Notation "m ';;;' k" := (bind m (fun _ => k))
  (at level 100, k at level 200, right associativity) : st_scope.
Open Scope st_scope.

(** ** The object: the fields set by [SCM.__init__] *)

Record SCM : Type := {
  url : string;
  ref : string;
  _archives_dir : option string;
  _archive_path : option string;
  _repo_name : option string;
  _package_dir : option string
}.

(** [SCM.__init__(url, ref)]. *)
Definition SCM_init (url ref : string) : SCM :=
  {| url := url; ref := ref; _archives_dir := None; _archive_path := None;
     _repo_name := None; _package_dir := None |}.

(** A method runs on the object and the world. *)
Definition M (A : Type) : Type := ST (SCM * World) A.

Definition lift {A} (m : ST World A) : M A :=
  fun '(self, w) => let '(r, w') := m w in (r, (self, w')).

Definition get_self : M SCM := fun s => (Ok s.1, s).
Definition get_world : M World := fun s => (Ok s.2, s).
Definition set_self (f : SCM -> SCM) : M unit := fun '(self, w) => (Ok tt, (f self, w)).

(** ** The temporary area: [tempfile] *)

Module tempfile.

Fixpoint alist_get {A} (k : string) (l : list (string * A)) : option A :=
  match l with
  | [] => None
  | (k', v) :: r => if String.eqb k k' then Some v else alist_get k r
  end.

(** Replaces the first binding of [k], or adds one at the end. *)
Fixpoint alist_set {A} (k : string) (v : A) (l : list (string * A)) : list (string * A) :=
  match l with
  | [] => [(k, v)]
  | (k', v') :: r => if String.eqb k k' then (k, v) :: r else (k', v') :: alist_set k v r
  end.

Definition alist_del {A} (k : string) (l : list (string * A)) : list (string * A) :=
  filter (fun kv => kv.1 ≠ k) l.

Definition children_of (n : Node) : list (string * Node) :=
  match n with Dir ch => ch | _ => [] end.

Fixpoint node_at (comps : list string) (n : Node) : option Node :=
  match comps with
  | [] => Some n
  | c :: rest =>
      match n with
      | Dir ch => match alist_get c ch with Some m => node_at rest m | None => None end
      | _ => None
      end
  end.

(** Writes [v] at [comps] below [n]; missing directories on the way are
    created. *)
Fixpoint node_set (comps : list string) (v : Node) (n : Node) : Node :=
  match comps with
  | [] => v
  | c :: rest =>
      let ch := children_of n in
      let sub := match alist_get c ch with Some m => m | None => Dir [] end in
      Dir (alist_set c (node_set rest v sub) ch)
  end.

(** Removes what stands at [comps] below [n], if anything. *)
Fixpoint node_del (comps : list string) (n : Node) : Node :=
  match comps, n with
  | [], _ => n
  | [c], Dir ch => Dir (alist_del c ch)
  | c :: rest, Dir ch =>
      match alist_get c ch with
      | Some m => Dir (alist_set c (node_del rest m) ch)
      | None => n
      end
  | _ :: _, _ => n
  end.

(** The directory [mkdtemp] creates for the prefix [cachito-]. *)
Definition temp_dir (w : World) : string := "/tmp/cachito-" +:+ mkdtemp_suffix w.

(** The components of a path below the temporary directory. *)
Definition rel (w : World) (p : string) : option (list string) :=
  let t := temp_dir w in
  if Str.startswith t p then
    let r := Str.drop (String.length t) p in
    if negb (Str.truthy r) || Str.startswith "/" r
    then Some (filter (fun c => c ≠ "") (Str.split "/" r))
    else None
  else None.

Definition read (p : string) : ST World (option Node) :=
  fun w => (Ok (match tmp w, rel w p with
                | Some ch, Some comps => node_at comps (Dir ch)
                | _, _ => None
                end), w).

Definition write (p : string) (v : Node) : ST World unit :=
  fun w => match tmp w, rel w p with
           | Some ch, Some comps =>
               (Ok tt, with_tmp (Some (children_of (node_set comps v (Dir ch)))) w)
           | _, _ => (Err (FileNotFoundError p), w)
           end.

(** [with tempfile.TemporaryDirectory(prefix='cachito-') as temp_dir]:
    the directory is created empty and removed on every exit. *)
Definition TemporaryDirectory {A} (body : string -> M A) : M A :=
  let* w0 := get_world in
  lift (modify (with_tmp (Some []))) ;;;
  try_finally (body (temp_dir w0)) (fun '(self, w) => (self, with_tmp (tmp w0) w)).

End tempfile.

(** ** [tarfile] *)

Module tarfile.

(** [TarFile.add(name, arcname)]: the entry itself, then, for a
    directory, its entries under [arcname]. *)
Fixpoint add (n : Node) (arcname : string) : list Member :=
  match n with
  | File d => [(arcname, MFile d)]
  | GitDir db => [(arcname, MGit db)]
  | Dir ch =>
      (arcname, MDir) ::
      (fix add_children (l : list (string * Node)) : list Member :=
         match l with
         | [] => []
         | (name, c) :: r => add c (os_path.join arcname [name]) ++ add_children r
         end) ch
  end.

(** [tarfile.is_tarfile]. *)
Definition is_tarfile (p : string) : ST World bool :=
  fun w => match os.open_r w p with
           | Ok (TarGz _) => (Ok true, w)
           | Ok (Garbage _) => (Ok false, w)
           | Err e => (Err e, w)
           end.

(** [tarfile.open(p, mode='r:gz')]. *)
Definition open_r_gz (p : string) : ST World (list Member) :=
  fun w => match os.open_r w p with
           | Ok (TarGz ms) => (Ok ms, w)
           | Ok (Garbage _) => (Err (ReadError p), w)
           | Err e => (Err e, w)
           end.

Definition member_comps (name : string) : list string :=
  filter (fun c => c ≠ "" ∧ c ≠ ".") (Str.split "/" name).

Definition escapes (name : string) : bool :=
  os_path.isabs name || bool_decide (".." ∈ Str.split "/" name).

Definition extract (root : Node) (m : Member) : Res Node :=
  let '(name, body) := m in
  if escapes name then Err (OutsideDestinationError name)
  else
    let comps := member_comps name in
    Ok (match body with
        | MDir => match tempfile.node_at comps root with
                  | Some (Dir _) => root
                  | _ => tempfile.node_set comps (Dir []) root
                  end
        | MFile d => tempfile.node_set comps (File d) root
        | MGit db => tempfile.node_set comps (GitDir db) root
        end).

Fixpoint extract_all (root : Node) (ms : list Member) : Res Node :=
  match ms with
  | [] => Ok root
  | m :: r => match extract root m with
              | Ok root' => extract_all root' r
              | Err e => Err e
              end
  end.

(** [TarFile.extractall(dest)] into a directory of the temporary area. *)
Definition extractall (ms : list Member) (dest : string) : ST World unit :=
  let* d := tempfile.read dest in
  match d with
  | Some root =>
      let* root' := of_res (extract_all root ms) in
      tempfile.write dest root'
  | None => raise (FileNotFoundError dest)
  end.

(** [with tarfile.open(p, mode='w:gz') as t: t.add(from_dir, arcname)]:
    the file is created when it is opened; it holds the archive once the
    members are added and the file closed. *)
Definition write_gz (p from_dir arcname : string) : ST World unit :=
  let* w := get in
  let* opened := of_res (os.open_w w p) in
  let '(loc, w1) := opened in
  put w1 ;;;
  let* src := tempfile.read from_dir in
  match src with
  | Some n => modify (os.put loc (CFile (TarGz (add n arcname))))
  | None => raise (FileNotFoundError from_dir)
  end.

End tarfile.

(** ** [glob] *)

Module glob.

Definition ishidden (name : string) : bool := Str.startswith "." name.

Definition has_magic (s : string) : bool :=
  Str.contains "*" s || Str.contains "?" s || Str.contains "[" s.

(** [fnmatch] for the patterns the module uses: a star followed by
    literal text, or literal text alone. *)
Definition fnmatch (name pat : string) : bool :=
  match pat with
  | String "*" suf => Str.endswith suf name
  | _ => String.eqb name pat
  end.

(** [glob.glob(pathname)] for a path name whose directory part is
    literal: the entries of that directory whose names match the last
    component, hidden ones left out, each joined to the directory part,
    in the order the directory lists them. *)
Definition glob (w : World) (pathname : string) : list string :=
  let '(dirname, basename) := os_path.split pathname in
  match os.resolve w dirname with
  | Ok loc =>
      match os.content_at w loc with
      | Some CDir =>
          map (fun n => os_path.join dirname [n])
              (filter (fun n => (ishidden basename || negb (ishidden n))
                                && fnmatch n basename = true)
                      (os.listdir w loc))
      | _ => []
      end
  | Err _ => []
  end.

End glob.

(** ** GitPython *)

Module git.

(** A [git.Repo] object: the path of its working tree. *)
Record Repo : Type := { working_dir : string }.

Definition with_revs (r : list (string * Commit)) (db : GitDb) : GitDb :=
  {| g_origin := g_origin db; g_revs := r; g_head := g_head db; g_index := g_index db |}.
Definition with_head (h : option Commit) (db : GitDb) : GitDb :=
  {| g_origin := g_origin db; g_revs := g_revs db; g_head := h; g_index := g_index db |}.
Definition with_index (i : list string) (db : GitDb) : GitDb :=
  {| g_origin := g_origin db; g_revs := g_revs db; g_head := g_head db; g_index := i |}.

Definition log_net (e : NetEvent) : ST World unit :=
  modify (fun w => with_net_log (net_log w ++ [e]) w).

(** The database of the repository whose working tree is at [p]. *)
Definition db_at (p : string) : ST World GitDb :=
  let* n := tempfile.read p in
  match n with
  | None => raise (NoSuchPathError p)
  | Some (Dir ch) =>
      match tempfile.alist_get ".git" ch with
      | Some (GitDir db) => ret db
      | _ => raise (InvalidGitRepositoryError p)
      end
  | Some _ => raise (InvalidGitRepositoryError p)
  end.

Definition set_db (p : string) (db : GitDb) : ST World unit :=
  let* n := tempfile.read p in
  match n with
  | Some (Dir ch) => tempfile.write p (Dir (tempfile.alist_set ".git" (GitDir db) ch))
  | _ => raise (NoSuchPathError p)
  end.

(** [git.Repo(p)]. *)
Definition open_repo (p : string) : ST World Repo :=
  db_at p ;;; ret {| working_dir := p |}.

(** [git.repo.Repo.clone_from(url, to_path, no_checkout=True)]: the
    history of the remote is copied, no file is checked out. *)
Definition clone_from (url to_path : string) : ST World Repo :=
  log_net (NetClone url) ;;;
  let* w := get in
  match remotes w !! url with
  | None => raise (GitCommandError ("git clone " +:+ url))
  | Some revs =>
      tempfile.write to_path
        (Dir [(".git", GitDir {| g_origin := Some url; g_revs := revs;
                                 g_head := None; g_index := [] |})]) ;;;
      ret {| working_dir := to_path |}
  end.

(** What resolves after a fetch: what resolved before, and the revisions
    of the remote under the names not yet taken. *)
Definition merge_revs (mine theirs : list (string * Commit)) : list (string * Commit) :=
  mine ++ filter (fun kv => tempfile.alist_get kv.1 mine = None) theirs.

(** [repo.remote().fetch()]. *)
Definition fetch (repo : Repo) : ST World unit :=
  let* db := db_at (working_dir repo) in
  match g_origin db with
  | None => raise (ValueError "Remote named 'origin' didn't exist")
  | Some u =>
      log_net (NetFetch u) ;;;
      let* w := get in
      match remotes w !! u with
      | None => raise (GitCommandError ("git fetch " +:+ u))
      | Some revs => set_db (working_dir repo) (with_revs (merge_revs (g_revs db) revs) db)
      end
  end.

(** [repo.commit(rev)]. *)
Definition commit (repo : Repo) (rev : string) : ST World Commit :=
  let* db := db_at (working_dir repo) in
  match tempfile.alist_get rev (g_revs db) with
  | Some c => ret c
  | None => raise (BadName rev)
  end.

(** [repo.head.reference = c]. *)
Definition set_head_reference (repo : Repo) (c : Commit) : ST World unit :=
  let* db := db_at (working_dir repo) in
  set_db (working_dir repo) (with_head (Some c) db).

(** The components of a tracked path. *)
Definition path_comps (name : string) : list string :=
  filter (fun c => c ≠ "" ∧ c ≠ ".") (Str.split "/" name).

(** The files of the old index are removed, those of the tree written. *)
Definition checkout_tree (old_index : list string) (tree : list (string * string))
    (n : Node) : Node :=
  foldl (fun acc kv => tempfile.node_set (path_comps kv.1) (File kv.2) acc)
        (foldl (fun acc name => tempfile.node_del (path_comps name) acc) n old_index)
        tree.

(** [repo.head.reset(index=True, working_tree=True)]: the index and the
    tracked files are made those of the commit [HEAD] points at. *)
Definition head_reset (repo : Repo) : ST World unit :=
  let* db := db_at (working_dir repo) in
  match g_head db with
  | None => raise (GitCommandError "git reset --hard HEAD")
  | Some c =>
      let* n := tempfile.read (working_dir repo) in
      let n' := checkout_tree (g_index db) (c_tree c) (default (Dir []) n) in
      tempfile.write (working_dir repo)
        (Dir (tempfile.alist_set ".git" (GitDir (with_index (c_tree c).*1 db))
                (tempfile.children_of n')))
  end.

End git.

(** ** [cachito.workers.scm] *)

(** What a method returns when it returns no path: Python's [None]. *)
Inductive PyVal : Type :=
  | PyNone
  | PyStr (s : string).

Definition set_archives_dir (v : option string) (self : SCM) : SCM :=
  {| url := url self; ref := ref self; _archives_dir := v;
     _archive_path := _archive_path self; _repo_name := _repo_name self;
     _package_dir := _package_dir self |}.
Definition set_archive_path (v : option string) (self : SCM) : SCM :=
  {| url := url self; ref := ref self; _archives_dir := _archives_dir self;
     _archive_path := v; _repo_name := _repo_name self;
     _package_dir := _package_dir self |}.
Definition set_repo_name (v : option string) (self : SCM) : SCM :=
  {| url := url self; ref := ref self; _archives_dir := _archives_dir self;
     _archive_path := _archive_path self; _repo_name := v;
     _package_dir := _package_dir self |}.
Definition set_package_dir (v : option string) (self : SCM) : SCM :=
  {| url := url self; ref := ref self; _archives_dir := _archives_dir self;
     _archive_path := _archive_path self; _repo_name := _repo_name self;
     _package_dir := v |}.

(** [max(l, key=key, default=None)]: the first element whose key is not
    exceeded by a later one. *)
Fixpoint max_from (key : string -> ST World Z) (best : string) (kb : Z) (l : list string)
  : ST World string :=
  match l with
  | [] => ret best
  | x :: r =>
      let* kx := key x in
      if (kb <? kx)%Z then max_from key x kx r else max_from key best kb r
  end.

Definition max_by_key (key : string -> ST World Z) (l : list string)
  : ST World (option string) :=
  match l with
  | [] => ret None
  | x :: r => let* kx := key x in let* m := max_from key x kx r in ret (Some m)
  end.

Definition os_path_getctime (p : string) : ST World Z :=
  fun w => (os.getctime w p, w).

Definition os_path_exists (p : string) : ST World bool :=
  fun w => (Ok (os.path_exists w p), w).

Definition os_makedirs (p : string) : ST World unit :=
  fun w => match os.makedirs w p with
           | Ok w' => (Ok tt, w')
           | Err e => (Err e, w)
           end.

(** [if not field: field = compute] followed by [return field]. *)
Definition memo (field : option string) (compute : M string) : M string :=
  match field with
  | Some s => if Str.truthy s then ret s else compute
  | None => compute
  end.

(** [SCM.archive_name]. *)
Definition archive_name : M string :=
  let* self := get_self in
  ret (ref self +:+ ".tar.gz").

(** [SCM.archives_dir]. *)
Definition archives_dir : M string :=
  let* self := get_self in
  memo (_archives_dir self)
    (let* w := get_world in
     let d := os_path.abspath (cwd w) (cachito_sources_dir w) in
     set_self (set_archives_dir (Some d)) ;;;
     ret d).

(** [Git.repo_name]. *)
Definition repo_name : M string :=
  let* self := get_self in
  memo (_repo_name self)
    (let* parsed_url := of_res (urllib_parse.urlparse (url self)) in
     let repo := Str.strip "/" (urllib_parse.path parsed_url) in
     let repo := if Str.endswith ".git" repo
                 then Str.drop_last (String.length ".git") repo else repo in
     set_self (set_repo_name (Some repo)) ;;;
     ret repo).

(** [SCM.package_dir]. *)
Definition package_dir : M string :=
  let* self := get_self in
  match _package_dir self with
  | None =>
      let* ad := archives_dir in
      let* rn := repo_name in
      let d := os_path.join ad (Str.split "/" rn) in
      set_self (set_package_dir (Some d)) ;;;
      lift (os_makedirs d) ;;;
      ret d
  | Some d => ret d
  end.

(** [SCM.archive_path]. *)
Definition archive_path : M string :=
  let* self := get_self in
  memo (_archive_path self)
    (let* pd := package_dir in
     let* an := archive_name in
     let p := os_path.join pd [an] in
     set_self (set_archive_path (Some p)) ;;;
     ret p).

Definition checkout_failed (ref : string) : string :=
  "Checking out the Git repository failed. Please verify the supplied reference "
  +:+ "of " +:+ String (ascii_of_nat 34) ref +:+ String (ascii_of_nat 34) " is valid.".

(** [Git._reset_git_head]. *)
Definition _reset_git_head (repo : git.Repo) : M unit :=
  let* self := get_self in
  try_except
    (let* c := lift (git.commit repo (ref self)) in
     lift (git.set_head_reference repo c) ;;;
     lift (git.head_reset repo))
    (fun _ => raise (CachitoError (checkout_failed (ref self)))).

(** [Git._create_archive]. *)
Definition _create_archive (from_dir : string) : M unit :=
  let* p := archive_path in
  lift (tarfile.write_gz p from_dir "app").

(** [Git.clone_and_archive]. *)
Definition clone_and_archive : M unit :=
  tempfile.TemporaryDirectory (fun temp_dir =>
    let* self := get_self in
    lift (modify (fun w => with_environ (<["GIT_TERMINAL_PROMPT" := "0"]> (environ w)) w)) ;;;
    let clone_path := os_path.join temp_dir ["repo"] in
    let* repo :=
      try_except (lift (git.clone_from (url self) clone_path))
                 (fun _ => raise (CachitoError "Cloning the Git repository failed")) in
    _reset_git_head repo ;;;
    _create_archive (git.working_dir repo)).

(** [Git.update_and_archive]. *)
Definition update_and_archive (previous_archive : string) : M unit :=
  tempfile.TemporaryDirectory (fun temp_dir =>
    let* tar := lift (tarfile.open_r_gz previous_archive) in
    lift (tarfile.extractall tar temp_dir) ;;;
    let* repo := lift (git.open_repo (os_path.join temp_dir ["app"])) in
    try_except (lift (git.fetch repo))
               (fun _ => raise (CachitoError "Failed to fetch from the remote Git repository")) ;;;
    _reset_git_head repo ;;;
    _create_archive (git.working_dir repo)).

(** [Git.fetch_source]. *)
Definition fetch_source : M PyVal :=
  let* p := archive_path in
  let* there := lift (os_path_exists p) in
  let* hit := if there then let* p' := archive_path in lift (tarfile.is_tarfile p')
              else ret false in
  if hit then ret PyNone
  else
    let* pd := package_dir in
    let* found := lift (fun w => (Ok (glob.glob w (os_path.join pd ["*.tar.gz"])), w)) in
    let* previous_archive := lift (max_by_key os_path_getctime found) in
    match previous_archive with
    | Some prev =>
        if Str.truthy prev then update_and_archive prev ;;; ret PyNone
        else clone_and_archive ;;; ret PyNone
    | None => clone_and_archive ;;; ret PyNone
    end.

(** * Vocabulary of the properties *)

Definition all_char (c : ascii) (s : string) : Prop :=
  Str.forallb (fun a => Ascii.eqb a c) s = true.

(** The name the specification derives from a URL path: the path without
    its leading and trailing slashes, and without one trailing [.git]. *)
Inductive name_of_path (p r : string) : Prop :=
  | NameOfPath (pre s post : string) :
      p = pre +:+ s +:+ post →
      all_char "/" pre → all_char "/" post →
      (∀ t, s ≠ String "/" t) → (∀ t, s ≠ t +:+ "/") →
      (s = r +:+ ".git" ∨ (r = s ∧ ∀ t, s ≠ t +:+ ".git")) →
      name_of_path p r.

(** The name as the property computes it when nothing is memoized. *)
Definition repo_name_of_path (p : string) : string :=
  let repo := Str.strip "/" p in
  if Str.endswith ".git" repo then Str.drop_last (String.length ".git") repo else repo.

Definition repo_name_of (url : string) : Res string :=
  match urllib_parse.urlparse url with
  | Ok parsed => Ok (repo_name_of_path (urllib_parse.path parsed))
  | Err e => Err e
  end.

(** Two worlds with the same entries and the same current directory. *)
Definition same_files (w w' : World) : Prop := fs w' = fs w ∧ cwd w' = cwd w.

(** The directories reached by following [comps] from [cur] all exist. *)
Fixpoint all_dirs (w : World) (cur : Loc) (comps : list string) : Prop :=
  match comps with
  | [] => os.content_at w cur = Some CDir
  | c :: rest => os.content_at w cur = Some CDir ∧ all_dirs w (os.step cur c) rest
  end.

(** What [mkdirs] changes: entries are added where there was none, and
    they are directories; nothing else of the world changes. *)
Record grown (w w' : World) : Prop := {
  grown_static : cachito_sources_dir w' = cachito_sources_dir w ∧ cwd w' = cwd w
                 ∧ remotes w' = remotes w ∧ mkdtemp_suffix w' = mkdtemp_suffix w;
  grown_process : environ w' = environ w ∧ net_log w' = net_log w ∧ tmp w' = tmp w;
  grown_kept : ∀ l c, os.content_at w l = Some c → os.content_at w' l = Some c;
  grown_new : ∀ l, os.content_at w l = None →
              os.content_at w' l = None ∨ os.content_at w' l = Some CDir;
  grown_entries : ∀ l i, fs w !! l = Some i → fs w' !! l = Some i
}.

(** The values the memoized properties take for a repository name [n]. *)
Definition archives_dir_of (w : World) : string :=
  os_path.abspath (cwd w) (cachito_sources_dir w).

Definition package_dir_of (w : World) (n : string) : string :=
  os_path.join (archives_dir_of w) (Str.split "/" n).

Definition archive_path_of (w : World) (n r : string) : string :=
  os_path.join (package_dir_of w n) [r +:+ ".tar.gz"].

(** The object once [archive_path] has been computed. *)
Definition memoized (u r : string) (w : World) (n : string) : SCM :=
  {| url := u; ref := r;
     _archives_dir := Some (archives_dir_of w);
     _archive_path := Some (archive_path_of w n r);
     _repo_name := Some n;
     _package_dir := Some (package_dir_of w n) |}.

(** The object when [os.makedirs] fails inside [package_dir]. *)
Definition half_memoized (u r : string) (w : World) (n : string) : SCM :=
  {| url := u; ref := r;
     _archives_dir := Some (archives_dir_of w);
     _archive_path := None;
     _repo_name := Some n;
     _package_dir := Some (package_dir_of w n) |}.

(** Looking for the archive of an earlier request. *)
Definition find_previous (pd : string) : ST World (option string) :=
  let* w := get in
  max_by_key os_path_getctime (glob.glob w (os_path.join pd ["*.tar.gz"])).

(** What [fetch_source] does once the cache has missed. *)
Definition regenerate (pd : string) : M PyVal :=
  let* previous_archive := lift (find_previous pd) in
  match previous_archive with
  | Some prev =>
      if Str.truthy prev then update_and_archive prev ;;; ret PyNone
      else clone_and_archive ;;; ret PyNone
  | None => clone_and_archive ;;; ret PyNone
  end.

(** The cache test on a world where the archive path is [p]. *)
Inductive CacheState : Type :=
  | Hit
  | Miss
  | Unreadable (e : Exn).

Definition cache_state (w : World) (p : string) : CacheState :=
  if os.path_exists w p then
    match os.open_r w p with
    | Ok (TarGz _) => Hit
    | Ok (Garbage _) => Miss
    | Err e => Unreadable e
    end
  else Miss.

(** Between the cache test and the writing of the archive only the
    temporary area and the network log change. *)
Definition wt_step (evs : list NetEvent) (w w' : World) : Prop :=
  w' = with_tmp (tmp w') (with_net_log (net_log w ++ evs) w).

(** The start of [update_and_archive]: the seed is unpacked and the
    repository in it opened. *)
Definition seed_repo (prev temp_dir : string) : ST World git.Repo :=
  let* tar := tarfile.open_r_gz prev in
  tarfile.extractall tar temp_dir ;;;
  git.open_repo (os_path.join temp_dir ["app"]).

(** The body of the [try] of [_reset_git_head]. *)
Definition reset_head (rev : string) (repo : git.Repo) : ST World unit :=
  let* c := git.commit repo rev in
  git.set_head_reference repo c ;;;
  git.head_reset repo.

Definition fetch_failed : string := "Failed to fetch from the remote Git repository".
Definition clone_failed : string := "Cloning the Git repository failed".

(** The world in which the body of [clone_and_archive] starts to clone. *)
Definition clone_world (w : World) : World :=
  with_environ (<["GIT_TERMINAL_PROMPT" := "0"]> (environ w)) (with_tmp (Some []) w).

(** The end of both methods: the head is reset, the archive written, the
    temporary directory removed. *)
Definition reset_and_archive (p : string) (t0 : option (list (string * Node)))
    (repo : git.Repo) (self : SCM) (w : World) : Res unit * (SCM * World) :=
  match reset_head (ref self) repo w with
  | (Err _, w4) =>
      (Err (CachitoError (checkout_failed (ref self))), (self, with_tmp t0 w4))
  | (Ok _, w4) =>
      match tarfile.write_gz p (git.working_dir repo) "app" w4 with
      | (r, w5) => (r, (self, with_tmp t0 w5))
      end
  end.

(** The archive file has been created at [loc] and then filled. *)
Definition archived (loc : Loc) (ms : list Member) (w : World) : World :=
  os.put loc (CFile (TarGz ms)) (os.put loc (CFile (Garbage "")) w).

(** No seed: nothing was found, or what was found is an empty string. *)
Definition no_seed (pd : string) (w : World) : Prop :=
  find_previous pd w = (Ok None, w)
  ∨ ∃ prev, find_previous pd w = (Ok (Some prev), w) ∧ Str.truthy prev = false.

(** How the two methods end, from the world [w3] in which the working tree
    stands, to the world before the temporary directory is removed. *)
Inductive Finished (p rev : string) (repo : git.Repo) (w3 : World)
  : Res unit → World → Prop :=
  | FinBadRef (e : Exn) (w4 : World) :
      reset_head rev repo w3 = (Err e, w4) →
      Finished p rev repo w3 (Err (CachitoError (checkout_failed rev))) w4
  | FinWritten (w4 : World) (r : Res unit) (w5 : World) :
      reset_head rev repo w3 = (Ok tt, w4) →
      tarfile.write_gz p (git.working_dir repo) "app" w4 = (r, w5) →
      Finished p rev repo w3 r w5.

(** The runs after a cache miss. *)
Inductive Regenerated (pd p u rev : string) (w : World) : Res unit → World → Prop :=
  | RegNoList (e : Exn) :
      find_previous pd w = (Err e, w) →
      Regenerated pd p u rev w (Err e) w
  | RegSeedFail (prev : string) (e : Exn) (w2 : World) :
      find_previous pd w = (Ok (Some prev), w) → Str.truthy prev = true →
      seed_repo prev (tempfile.temp_dir w) (with_tmp (Some []) w) = (Err e, w2) →
      Regenerated pd p u rev w (Err e) w2
  | RegFetchFail (prev : string) (repo : git.Repo) (w2 : World) (e : Exn) (w3 : World) :
      find_previous pd w = (Ok (Some prev), w) → Str.truthy prev = true →
      seed_repo prev (tempfile.temp_dir w) (with_tmp (Some []) w) = (Ok repo, w2) →
      git.fetch repo w2 = (Err e, w3) →
      Regenerated pd p u rev w (Err (CachitoError fetch_failed)) w3
  | RegUpdated (prev : string) (repo : git.Repo) (w2 w3 : World) (r : Res unit) (w5 : World) :
      find_previous pd w = (Ok (Some prev), w) → Str.truthy prev = true →
      seed_repo prev (tempfile.temp_dir w) (with_tmp (Some []) w) = (Ok repo, w2) →
      git.fetch repo w2 = (Ok tt, w3) →
      Finished p rev repo w3 r w5 →
      Regenerated pd p u rev w r w5
  | RegCloneFail (e : Exn) (w2 : World) :
      no_seed pd w →
      git.clone_from u (os_path.join (tempfile.temp_dir w) ["repo"]) (clone_world w)
        = (Err e, w2) →
      Regenerated pd p u rev w (Err (CachitoError clone_failed)) w2
  | RegCloned (repo : git.Repo) (w2 : World) (r : Res unit) (w5 : World) :
      no_seed pd w →
      git.clone_from u (os_path.join (tempfile.temp_dir w) ["repo"]) (clone_world w)
        = (Ok repo, w2) →
      Finished p rev repo w2 r w5 →
      Regenerated pd p u rev w r w5.

Definition to_none (r : Res unit) : Res PyVal :=
  match r with Ok _ => Ok PyNone | Err e => Err e end.

(** The runs of [fetch_source] on a new object. *)
Inductive Fetched (u r : string) (w : World) : Res PyVal → SCM → World → Prop :=
  | FetBadUrl (e : Exn) :
      repo_name_of u = Err e →
      Fetched u r w (Err e) (set_archives_dir (Some (archives_dir_of w)) (SCM_init u r)) w
  | FetNoDir (n : string) (e : Exn) :
      repo_name_of u = Ok n → os.makedirs w (package_dir_of w n) = Err e →
      Fetched u r w (Err e) (half_memoized u r w n) w
  | FetHit (n : string) (w1 : World) :
      repo_name_of u = Ok n → os.makedirs w (package_dir_of w n) = Ok w1 →
      cache_state w1 (archive_path_of w n r) = Hit →
      Fetched u r w (Ok PyNone) (memoized u r w n) w1
  | FetUnreadable (n : string) (w1 : World) (e : Exn) :
      repo_name_of u = Ok n → os.makedirs w (package_dir_of w n) = Ok w1 →
      cache_state w1 (archive_path_of w n r) = Unreadable e →
      Fetched u r w (Err e) (memoized u r w n) w1
  | FetMiss (n : string) (w1 : World) (r0 : Res unit) (w5 : World) :
      repo_name_of u = Ok n → os.makedirs w (package_dir_of w n) = Ok w1 →
      cache_state w1 (archive_path_of w n r) = Miss →
      Regenerated (package_dir_of w n) (archive_path_of w n r) u r w1 r0 w5 →
      Fetched u r w (to_none r0) (memoized u r w n) (with_tmp (tmp w1) w5).

(** The configuration is the same and the directories are still there. *)
Record settled (w w' : World) : Prop := {
  settled_cwd : cwd w' = cwd w;
  settled_config : cachito_sources_dir w' = cachito_sources_dir w;
  settled_remotes : remotes w' = remotes w;
  settled_suffix : mkdtemp_suffix w' = mkdtemp_suffix w;
  settled_dirs : ∀ l, os.content_at w l = Some CDir → os.content_at w' l = Some CDir
}.

(** The route a run after a miss took, read off the network log and the
    environment: an update adds at most one fetch and leaves the
    environment alone; a clone adds one clone and sets
    [GIT_TERMINAL_PROMPT]. *)
Definition updated_process (w w5 : World) : Prop :=
  environ w5 = environ w
  ∧ (net_log w5 = net_log w ∨ ∃ u', net_log w5 = net_log w ++ [NetFetch u']).

Definition cloned_process (u : string) (w w5 : World) : Prop :=
  environ w5 = <["GIT_TERMINAL_PROMPT" := "0"]> (environ w)
  ∧ net_log w5 = net_log w ++ [NetClone u].

(** A readable, well-formed archive stands at the path. *)
Definition valid_archive_at (w : World) (p : string) : Prop :=
  ∃ ms, os.open_r w p = Ok (TarGz ms).


(** ** Example worlds *)

Definition ex_url : string := "https://example.com/foo/bar.git".

Definition ex_commit_abc : Commit :=
  {| c_sha := "abc"; c_tree := [("README", "first"); ("src/main.py", "print(1)")] |}.

Definition ex_commit_def : Commit :=
  {| c_sha := "def"; c_tree := [("README", "second"); ("setup.py", "setup()")] |}.

Definition ex_revs : list (string * Commit) :=
  [("abc", ex_commit_abc); ("def", ex_commit_def); ("feature/x", ex_commit_def)].

(** An empty cache under [/var/cachito]; the remote of [ex_url] answers. *)
Definition ex_world : World :=
  {| cachito_sources_dir := "/var/cachito"; cwd := "/"; fs := ∅; clock := 0;
     environ := ∅; remotes := {[ ex_url := ex_revs ]}; net_log := [];
     mkdtemp_suffix := "k3x9q"; tmp := None |}.


(** The world a run of [fetch_source] on a new object leaves. *)
Definition world_after (u r : string) (w : World) : World :=
  (fetch_source (SCM_init u r, w)).2.2.

Definition self_after (u r : string) (w : World) : SCM :=
  (fetch_source (SCM_init u r, w)).2.1.

Definition result_of (u r : string) (w : World) : Res PyVal :=
  (fetch_source (SCM_init u r, w)).1.

(** The cache after [abc] has been fetched. *)
Definition ex_world_abc : World := world_after ex_url "abc" ex_world.


(** The cache of [ex_url] holding a zero-byte file where the archive of
    [abc] belongs. *)
Definition ex_world_corrupt : World :=
  {| cachito_sources_dir := "/var/cachito"; cwd := "/";
     fs := {[ ["var"] := {| i_content := CDir; i_ctime := 0 |};
              ["var"; "cachito"] := {| i_content := CDir; i_ctime := 1 |};
              ["var"; "cachito"; "foo"] := {| i_content := CDir; i_ctime := 2 |};
              ["var"; "cachito"; "foo"; "bar"] := {| i_content := CDir; i_ctime := 3 |};
              ["var"; "cachito"; "foo"; "bar"; "abc.tar.gz"] :=
                {| i_content := CFile (Garbage ""); i_ctime := 4 |} ]};
     clock := 5; environ := ∅; remotes := {[ ex_url := ex_revs ]}; net_log := [];
     mkdtemp_suffix := "k3x9q"; tmp := None |}.



(** A name with no slash in it. *)
Definition plain_name (c : string) : Prop := Str.contains "/" c = false.

(** The entries of the file system are reached by plain names. *)
Definition fs_wf (w : World) : Prop :=
  map_Forall (λ (k : Loc) (_ : Inode), Forall plain_name k) (fs w).


#[global] Instance plain_name_dec (c : string) : Decision (plain_name c).
Proof. unfold plain_name. apply _. Defined.

#[global] Instance fs_wf_dec (w : World) : Decision (fs_wf w).
Proof. unfold fs_wf. apply _. Defined.

(** The working tree of [repo] stands in the world [w3]: a seed was found,
    unpacked and brought up to date, or nothing was found and the
    repository was cloned. *)
Inductive WorkingTree (pd u : string) (w : World) (repo : git.Repo) (w3 : World) : Prop :=
  | WtUpdated (prev : string) (w2 : World) :
      find_previous pd w = (Ok (Some prev), w) →
      seed_repo prev (tempfile.temp_dir w) (with_tmp (Some []) w) = (Ok repo, w2) →
      git.fetch repo w2 = (Ok tt, w3) →
      WorkingTree pd u w repo w3
  | WtCloned :
      find_previous pd w = (Ok None, w) →
      git.clone_from u (os_path.join (tempfile.temp_dir w) ["repo"]) (clone_world w)
        = (Ok repo, w3) →
      WorkingTree pd u w repo w3.

(** A second repository, whose name continues the name of [ex_url]. *)
Definition ex_url_sub : string := "https://example.com/foo/bar/feature.git".

Definition ex_world_two : World :=
  {| cachito_sources_dir := "/var/cachito"; cwd := "/"; fs := ∅; clock := 0;
     environ := ∅; remotes := {[ ex_url := ex_revs; ex_url_sub := ex_revs ]};
     net_log := []; mkdtemp_suffix := "k3x9q"; tmp := None |}.

(** The cache after [abc] of the second repository has been fetched. *)
Definition ex_world_sub : World := world_after ex_url_sub "abc" ex_world_two.

(** The pieces of the runs on the example worlds. *)
Definition ex_seed : string := "/var/cachito/foo/bar/abc.tar.gz".


Definition ex_repo_clone : git.Repo := {| git.working_dir := "/tmp/cachito-k3x9q/repo" |}.



(** The world once the clone was attempted. *)
Definition ex_cloned (w : World) : World :=
  (git.clone_from ex_url (os_path.join (tempfile.temp_dir w) ["repo"]) (clone_world w)).2.

(** The world once [package_dir] has made its directories. *)
Definition ex_with_dirs (w : World) : World :=
  match os.makedirs w (package_dir_of w "foo/bar") with
  | Ok w1 => w1
  | Err _ => w
  end.

(** ** Well-formed trees of the temporary area *)

(** The name of a directory entry: not empty, no slash. *)
Definition good_name (k : string) : Prop := k ≠ EmptyString ∧ plain_name k.

(** Every entry of the tree has the name of a directory entry. *)
Fixpoint wf_node (n : Node) : Prop :=
  match n with
  | Dir ch =>
      (fix wf_list (l : list (string * Node)) : Prop :=
         match l with
         | [] => True
         | (k, c) :: r => good_name k ∧ wf_node c ∧ wf_list r
         end) ch
  | _ => True
  end.

Definition wf_children (ch : list (string * Node)) : Prop :=
  Forall (λ kc, good_name kc.1 ∧ wf_node kc.2) ch.

Definition tmp_wf (w : World) : Prop :=
  match tmp w with
  | Some ch => wf_children ch
  | None => True
  end.

(** The member name lies below [arc]. *)
Definition below (arc name : string) : Prop := ∃ t, name = arc +:+ "/" +:+ t.

(** A name under which [TarFile.add] nests entries with a slash. *)
Definition arc_ok (arc : string) : Prop :=
  arc ≠ EmptyString ∧ Str.endswith "/" arc = false.

(** ** Further vocabulary and examples *)

(** The object with another URL. *)
Definition set_url (u : string) (self : SCM) : SCM :=
  {| url := u; ref := ref self; _archives_dir := _archives_dir self;
     _archive_path := _archive_path self; _repo_name := _repo_name self;
     _package_dir := _package_dir self |}.

(** A URL on another host, with the path of [ex_url]. *)
Definition ex_url_mirror : string := "ssh://git@mirror.example.org/foo/bar".

(** The cache of [ex_url] with a directory where the archive of [abc]
    belongs. *)
Definition ex_world_blocked : World :=
  {| cachito_sources_dir := "/var/cachito"; cwd := "/";
     fs := {[ ["var"] := {| i_content := CDir; i_ctime := 0 |};
              ["var"; "cachito"] := {| i_content := CDir; i_ctime := 1 |};
              ["var"; "cachito"; "foo"] := {| i_content := CDir; i_ctime := 2 |};
              ["var"; "cachito"; "foo"; "bar"] := {| i_content := CDir; i_ctime := 3 |};
              ["var"; "cachito"; "foo"; "bar"; "abc.tar.gz"] :=
                {| i_content := CDir; i_ctime := 4 |} ]};
     clock := 5; environ := ∅; remotes := {[ ex_url := ex_revs ]}; net_log := [];
     mkdtemp_suffix := "k3x9q"; tmp := None |}.

(** The outcome of [_reset_git_head] on the clone of the example. *)
Definition ex_reset : Res unit * (SCM * World) :=
  _reset_git_head ex_repo_clone
    (memoized ex_url "abc" ex_world "foo/bar", ex_cloned (ex_with_dirs ex_world)).

(** The working tree of the example once [abc] is checked out. *)
Definition ex_tree : Node :=
  match (tempfile.read (git.working_dir ex_repo_clone) ex_reset.2.2).1 with
  | Ok (Some n) => n
  | _ => Dir []
  end.

(** A name that [tarfile] extracts to the entry of that name: not empty,
    without a slash, neither [.] nor [..]. *)
Definition entry_ok (k : string) : bool :=
  negb (String.eqb k "") && negb (Str.contains "/" k)
  && negb (String.eqb k ".") && negb (String.eqb k "..").

(** A tree whose entries have such names, no two of a directory the same. *)
Fixpoint unpackable (n : Node) : bool :=
  match n with
  | Dir ch =>
      (fix unpackable_list (l : list (string * Node)) : bool :=
         match l with
         | [] => true
         | (k, c) :: r =>
             entry_ok k
             && match tempfile.alist_get k r with None => true | Some _ => false end
             && unpackable c && unpackable_list r
         end) ch
  | _ => true
  end.


(** [a] is an initial part of [b]. *)
Fixpoint starts_with (a b : list string) : bool :=
  match a, b with
  | [], _ => true
  | x :: a', y :: b' => String.eqb x y && starts_with a' b'
  | _ :: _, [] => false
  end.

(** Two tracked paths of which neither lies at or below the other. *)
Definition apart (a b : list string) : bool :=
  negb (starts_with a b) && negb (starts_with b a).

(** The tracked paths of a tree as Git keeps them: none is empty or lies
    in [.git], and no two lie at or below one another. *)
Fixpoint tree_ok (t : list (string * string)) : bool :=
  match t with
  | [] => true
  | (p, _) :: r =>
      match git.path_comps p with
      | [] => false
      | c :: _ => negb (String.eqb c ".git")
      end
      && forallb (fun q => apart (git.path_comps p) (git.path_comps q.1)) r
      && tree_ok r
  end.

(** The member name [TarFile.add] gives the tracked path [p] below [arc]. *)
Definition member_of_path (arc p : string) : string :=
  foldl (fun a c => a +:+ "/" +:+ c) arc (git.path_comps p).


(** * Properties *)

(** ** Strings *)

Section StrFacts.

Lemma app_assoc_str (a b c : string) : (a +:+ b) +:+ c = a +:+ (b +:+ c).
Proof. induction a as [|x a IH]; simpl; [done | by rewrite IH]. Qed.


Lemma lstrip_spec (c : ascii) (s : string) :
  ∃ pre, s = pre +:+ Str.lstrip c s ∧ all_char c pre
         ∧ ∀ t, Str.lstrip c s ≠ String c t.
Proof.
  induction s as [|a r (pre & Heq & Hall & Hno)]; simpl.
  - by exists "".
  - destruct (Ascii.eqb a c) eqn:E.
    + apply Ascii.eqb_eq in E as ->.
      exists (String c pre); simpl; split_and!; [by rewrite <- Heq | | done].
      unfold all_char; simpl. by rewrite Ascii.eqb_refl.
    + exists ""; simpl; split_and!; [done..|].
      intros t [= -> _]. by rewrite Ascii.eqb_refl in E.
Qed.

Lemma rstrip_spec (c : ascii) (s : string) :
  ∃ post, s = Str.rstrip c s +:+ post ∧ all_char c post
          ∧ ∀ t, Str.rstrip c s ≠ t +:+ String c "".
Proof.
  induction s as [|a r (post & Heq & Hall & Hno)]; simpl.
  - exists ""; split_and!; [done..|]. by intros [|??].
  - destruct (Str.rstrip c r) as [|b r'] eqn:Er.
    + simpl in Heq. subst r.
      destruct (Ascii.eqb a c) eqn:E.
      * apply Ascii.eqb_eq in E as ->.
        exists (String c post); split_and!; [done| |by intros [|??]].
        unfold all_char; simpl. by rewrite Ascii.eqb_refl.
      * exists post; split_and!; [done..|].
        intros [|x t]; simpl.
        -- intros [= ->]. by rewrite Ascii.eqb_refl in E.
        -- intros [= _ H]. by destruct t.
    + exists post; split_and!; [simpl; by rewrite Heq at 1 | done |].
      intros [|x t]; simpl; [done|].
      intros [= _ H]. by apply (Hno t).
Qed.

(** What [rstrip] leaves starts as its argument does. *)
Lemma rstrip_head (c a : ascii) (s t : string) :
  Str.rstrip c s = String a t → ∃ t', s = String a t'.
Proof.
  destruct s as [|b r]; simpl; [done|].
  destruct (Str.rstrip c r); [destruct (Ascii.eqb b c)|]; intros [= -> _]; eauto.
Qed.

Lemma endswith_spec (suf s : string) :
  Str.endswith suf s = true ↔ ∃ r, s = r +:+ suf.
Proof.
  induction s as [|a r IH].
  - cbn [Str.endswith]. rewrite orb_false_r, String.eqb_eq. split.
    + intros <-. by exists "".
    + intros [[|??] H]; simpl in H; [done | discriminate].
  - cbn [Str.endswith]. rewrite orb_true_iff, String.eqb_eq, IH. split.
    + intros [<- | [t ->]]; [by exists "" | by exists (String a t)].
    + intros [[|b t] H]; simpl in H; [by left|].
      injection H as -> ->. right. by exists t.
Qed.

Lemma length_app_str (a b : string) :
  String.length (a +:+ b) = (String.length a + String.length b)%nat.
Proof. induction a as [|x a IH]; simpl; [done | by rewrite IH]. Qed.

Lemma substring_app_l (a b : string) :
  String.substring 0 (String.length a) (a +:+ b) = a.
Proof. induction a as [|x a IH]; simpl; [by destruct b | by rewrite IH]. Qed.

Lemma drop_last_app (r suf : string) :
  Str.drop_last (String.length suf) (r +:+ suf) = r.
Proof.
  unfold Str.drop_last. rewrite length_app_str.
  replace (String.length r + String.length suf - String.length suf)%nat
    with (String.length r) by lia.
  apply substring_app_l.
Qed.

End StrFacts.

(** ** The repository name *)

Lemma repo_name_of_path_spec (p : string) : name_of_path p (repo_name_of_path p).
Proof.
  unfold repo_name_of_path, Str.strip.
  destruct (lstrip_spec "/" p) as (pre & Hp & Hpre & Hl).
  destruct (rstrip_spec "/" (Str.lstrip "/" p)) as (post & Hs & Hpost & Hr).
  set (s := Str.rstrip "/" (Str.lstrip "/" p)) in *.
  assert (Hhead : ∀ t, s ≠ String "/" t).
  { intros t Ht. destruct (rstrip_head _ _ _ _ Ht) as [t' Ht']. by apply (Hl t'). }
  apply (NameOfPath _ _ pre s post); try done.
  - by rewrite Hp at 1; rewrite Hs at 1.
  - destruct (Str.endswith ".git" s) eqn:E.
    + apply endswith_spec in E as [r ->]. left. by rewrite drop_last_app.
    + right. split; [done|]. intros t Ht.
      assert (Str.endswith ".git" s = true) by (apply endswith_spec; eauto).
      congruence.
Qed.

Lemma repo_name_fresh (u r : string) (w : World) :
  repo_name (SCM_init u r, w) =
  match repo_name_of u with
  | Ok n => (Ok n, (set_repo_name (Some n) (SCM_init u r), w))
  | Err e => (Err e, (SCM_init u r, w))
  end.
Proof.
  unfold repo_name, repo_name_of, bind, get_self, memo, of_res; simpl.
  by destruct (urllib_parse.urlparse u).
Qed.

Lemma set_repo_name_id (self : SCM) (n : string) :
  _repo_name self = Some n → set_repo_name (Some n) self = self.
Proof. destruct self; simpl; by intros ->. Qed.

Lemma repo_name_memo (self : SCM) (w : World) (n : string) :
  repo_name_of (url self) = Ok n → _repo_name self = Some n →
  repo_name (self, w) = (Ok n, (self, w)).
Proof.
  intros Hn Hm. cbv [repo_name bind get_self memo fst]. rewrite Hm.
  destruct (Str.truthy n); [done|].
  unfold repo_name_of in Hn. cbv [of_res set_self ret].
  destruct (urllib_parse.urlparse (url self)); [|done].
  injection Hn as Hn. unfold repo_name_of_path in Hn. rewrite Hn.
  by rewrite set_repo_name_id.
Qed.

(** C7. [Git.repo_name] is a function of the URL alone that leaves the
    world untouched: when the URL parses, the name is the path component
    without its leading and trailing slashes and without one trailing
    [.git], and asking again gives the same name; a URL that does not parse
    raises the parser's error.  For [https://example.com/foo/bar.git] and
    [https://example.com/foo/bar] the name is [foo/bar]. *)
Theorem repo_name_derivation :
  (∀ (u r : string) (w : World),
     match urllib_parse.urlparse u with
     | Ok parsed =>
         ∃ n self',
           repo_name (SCM_init u r, w) = (Ok n, (self', w))
           ∧ name_of_path (urllib_parse.path parsed) n
           ∧ repo_name (self', w) = (Ok n, (self', w))
     | Err e => repo_name (SCM_init u r, w) = (Err e, (SCM_init u r, w))
     end)
  ∧ (∀ (r : string) (w : World),
       (repo_name (SCM_init "https://example.com/foo/bar.git" r, w)).1 = Ok "foo/bar"
       ∧ (repo_name (SCM_init "https://example.com/foo/bar" r, w)).1 = Ok "foo/bar"
       ∧ (repo_name (SCM_init "https://example.com//foo/bar.git/" r, w)).1 = Ok "foo/bar").
Proof.
  split.
  - intros u r w. rewrite repo_name_fresh.
    pose proof (repo_name_memo (set_repo_name (Some (repo_name_of_path
      (match urllib_parse.urlparse u with Ok p => urllib_parse.path p | Err _ => "" end))) (SCM_init u r)) w) as Hm.
    unfold repo_name_of in *. simpl in Hm.
    destruct (urllib_parse.urlparse u) as [parsed|e]; [|done].
    eexists _, _. split_and!; [done | apply repo_name_of_path_spec | by apply Hm].
  - intros r w. split_and!; rewrite repo_name_fresh; reflexivity.
Qed.


(** ** The world's fields under the field updates *)

Lemma with_tmp_same (w : World) : with_tmp (tmp w) w = w.
Proof. by destruct w. Qed.


(** ** Path resolution and directory creation *)

Section FileSystem.

Implicit Types (w : World) (loc cur : Loc) (comps : list string) (p : string).

Lemma content_at_ext w w' loc : fs w' = fs w → os.content_at w' loc = os.content_at w loc.
Proof. intros H. unfold os.content_at. by rewrite H. Qed.

Lemma walk_ext w w' p cur comps :
  fs w' = fs w → os.walk w' p cur comps = os.walk w p cur comps.
Proof.
  intros H. revert cur. induction comps as [|c rest IH]; intros cur; simpl; [done|].
  rewrite (content_at_ext _ _ _ H). by rewrite IH.
Qed.

Lemma resolve_ext w w' p : same_files w w' → os.resolve w' p = os.resolve w p.
Proof.
  intros [Hf Hc]. unfold os.resolve, os.start_of. rewrite Hc. by apply walk_ext.
Qed.

Lemma stat_ext w w' p : same_files w w' → os.stat w' p = os.stat w p.
Proof.
  intros H. unfold os.stat. rewrite (resolve_ext _ _ _ H).
  destruct (os.resolve w p); [|done]. by rewrite (content_at_ext _ _ _ (proj1 H)).
Qed.

Lemma open_r_ext w w' p : same_files w w' → os.open_r w' p = os.open_r w p.
Proof. intros H. unfold os.open_r. by rewrite (stat_ext _ _ _ H). Qed.


Lemma content_at_put loc c w l :
  os.content_at (os.put loc c w) l =
  if decide (l = []) then Some CDir
  else if decide (loc = l) then Some c else os.content_at w l.
Proof.
  unfold os.content_at, os.put. destruct l as [|x l]; [done|]. simpl.
  rewrite lookup_insert. by repeat case_decide.
Qed.

Lemma all_dirs_mono w w' cur comps :
  (∀ l, os.content_at w l = Some CDir → os.content_at w' l = Some CDir) →
  all_dirs w cur comps → all_dirs w' cur comps.
Proof.
  intros H. revert cur. induction comps as [|c rest IH]; intros cur; simpl; [by auto|].
  intros [? ?]. split; by auto.
Qed.

Lemma mkdirs_all_dirs_id w p cur comps :
  all_dirs w cur comps → os.mkdirs w p cur comps = Ok w.
Proof.
  revert cur. induction comps as [|c rest IH]; intros cur; simpl.
  - by intros ->.
  - intros [-> ?]. by apply IH.
Qed.

Lemma grown_refl w : grown w w.
Proof. split; auto. Qed.

Lemma grown_trans w1 w2 w3 : grown w1 w2 → grown w2 w3 → grown w1 w3.
Proof.
  intros [[? [? [? ?]]] [? [? ?]] K1 N1 E1] [[? [? [? ?]]] [? [? ?]] K2 N2 E2].
  split; [split_and!; congruence | split_and!; congruence | by auto | | by auto].
  intros l Hl. destruct (N1 l Hl) as [H'|H']; [by auto|]. right. by apply K2.
Qed.

Lemma grown_put_dir w cur :
  os.content_at w cur = None → grown w (os.put cur CDir w).
Proof.
  intros Hcur. split; try done.
  - intros l c Hl. rewrite content_at_put. repeat case_decide; subst; try done.
    congruence.
  - intros l Hl. rewrite content_at_put. repeat case_decide; subst; auto.
  - intros l i Hl. unfold os.put; simpl. rewrite lookup_insert_ne; [done|].
    intros ->. unfold os.content_at in Hcur. destruct l; [done|].
    by rewrite Hl in Hcur.
Qed.

Lemma mkdirs_grown w w' p cur comps :
  os.mkdirs w p cur comps = Ok w' → grown w w'.
Proof.
  revert w cur. induction comps as [|c rest IH]; intros w cur; simpl.
  - destruct (os.content_at w cur) as [[|d]|] eqn:E; intros [= <-];
      [apply grown_refl | by apply grown_put_dir].
  - destruct (os.content_at w cur) as [[|d]|] eqn:E; [by apply IH | done |].
    intros H. eapply grown_trans; [by apply grown_put_dir | by eapply IH].
Qed.

Lemma mkdirs_all_dirs w w' p cur comps :
  os.mkdirs w p cur comps = Ok w' → all_dirs w' cur comps.
Proof.
  revert w cur. induction comps as [|c rest IH]; intros w cur; simpl.
  - destruct (os.content_at w cur) as [[|d]|] eqn:E; intros [= <-]; [done|].
    rewrite content_at_put. repeat case_decide; done.
  - destruct (os.content_at w cur) as [[|d]|] eqn:E; [| done |]; intros H.
    + split; [|by eapply IH]. by apply (grown_kept _ _ (mkdirs_grown _ _ _ _ _ H)).
    + split; [|by eapply IH]. apply (grown_kept _ _ (mkdirs_grown _ _ _ _ _ H)).
      rewrite content_at_put. repeat case_decide; done.
Qed.

(** [os.makedirs] is idempotent: once it has succeeded, it changes
    nothing, also after the world has gained entries. *)
Lemma makedirs_again w w1 w2 p :
  os.makedirs w p = Ok w1 → cwd w2 = cwd w →
  (∀ l, os.content_at w1 l = Some CDir → os.content_at w2 l = Some CDir) →
  os.makedirs w2 p = Ok w2.
Proof.
  unfold os.makedirs, os.start_of. intros H Hc Hd. rewrite Hc.
  apply mkdirs_all_dirs_id. eapply all_dirs_mono; [done|].
  by eapply mkdirs_all_dirs.
Qed.

(** Resolution does not depend on what stands at a location that is not
    a directory. *)
Lemma walk_stable w w' p cur comps loc :
  os.walk w p cur comps = Ok loc →
  (∀ l, os.content_at w l = Some CDir → os.content_at w' l = Some CDir) →
  os.walk w' p cur comps = Ok loc.
Proof.
  intros H Hd. revert cur H. induction comps as [|c rest IH]; intros cur; simpl; [done|].
  destruct (os.content_at w cur) as [[|d]|] eqn:E; [|done..].
  rewrite (Hd _ E). apply IH.
Qed.

Lemma resolve_stable w w' p loc :
  os.resolve w p = Ok loc → cwd w' = cwd w →
  (∀ l, os.content_at w l = Some CDir → os.content_at w' l = Some CDir) →
  os.resolve w' p = Ok loc.
Proof.
  unfold os.resolve, os.start_of. intros H Hc Hd. rewrite Hc. by eapply walk_stable.
Qed.

End FileSystem.


(** ** The paths of a request *)

Lemma truthy_app_r (a b : string) : Str.truthy b = true → Str.truthy (a +:+ b) = true.
Proof. by destruct a. Qed.

Lemma join2_truthy (a b : string) :
  Str.truthy b = true → Str.truthy (os_path.join2 a b) = true.
Proof.
  intros Hb. unfold os_path.join2.
  destruct (Str.startswith "/" b); [done|].
  destruct (_ || _); apply truthy_app_r; [done|]. by apply truthy_app_r.
Qed.

Lemma archive_path_of_truthy (w : World) (n r : string) :
  Str.truthy (archive_path_of w n r) = true.
Proof.
  unfold archive_path_of, os_path.join; simpl. apply join2_truthy, truthy_app_r. done.
Qed.

Lemma archive_path_fresh (u r : string) (w : World) :
  archive_path (SCM_init u r, w) =
  match repo_name_of u with
  | Err e => (Err e, (set_archives_dir (Some (archives_dir_of w)) (SCM_init u r), w))
  | Ok n =>
      match os.makedirs w (package_dir_of w n) with
      | Ok w1 => (Ok (archive_path_of w n r), (memoized u r w n, w1))
      | Err e => (Err e, (half_memoized u r w n, w))
      end
  end.
Proof.
  cbv [archive_path package_dir archives_dir repo_name archive_name memo bind get_self
       get_world set_self ret of_res lift os_makedirs SCM_init _archive_path _package_dir
       _archives_dir _repo_name url ref fst snd set_archives_dir set_repo_name
       set_package_dir set_archive_path repo_name_of].
  destruct (urllib_parse.urlparse u) as [parsed|e]; [|done].
  fold (archives_dir_of w).
  change (if Str.endswith ".git" (Str.strip "/" (urllib_parse.path parsed))
          then _ else _) with (repo_name_of_path (urllib_parse.path parsed)).
  set (n := repo_name_of_path _).
  fold (package_dir_of w n).
  destruct (os.makedirs w (package_dir_of w n)); done.
Qed.

Lemma archive_path_memo (self : SCM) (w : World) (p : string) :
  _archive_path self = Some p → Str.truthy p = true →
  archive_path (self, w) = (Ok p, (self, w)).
Proof.
  intros Hp Ht. cbv [archive_path bind get_self memo fst]. by rewrite Hp, Ht.
Qed.

Lemma package_dir_memo (self : SCM) (w : World) (d : string) :
  _package_dir self = Some d → package_dir (self, w) = (Ok d, (self, w)).
Proof. intros Hd. cbv [package_dir bind get_self fst]. by rewrite Hd. Qed.

(** ** The methods, step by step *)

Lemma fetch_source_after (s : SCM * World) (self : SCM) (w : World) (p pd : string) :
  archive_path s = (Ok p, (self, w)) →
  _archive_path self = Some p → Str.truthy p = true → _package_dir self = Some pd →
  fetch_source s =
  match cache_state w p with
  | Hit => (Ok PyNone, (self, w))
  | Miss => regenerate pd (self, w)
  | Unreadable e => (Err e, (self, w))
  end.
Proof.
  intros Hs Hp Ht Hd. unfold fetch_source, cache_state.
  unfold bind at 1. rewrite Hs.
  unfold bind at 1. unfold lift at 1, os_path_exists at 1.
  destruct (os.path_exists w p).
  - unfold bind at 1. unfold bind at 1. rewrite (archive_path_memo _ _ _ Hp Ht).
    unfold lift at 1, tarfile.is_tarfile.
    destruct (os.open_r w p) as [[ms|b]|e]; [done| |done].
    unfold bind at 1. rewrite (package_dir_memo _ _ _ Hd). done.
  - unfold bind at 1, ret at 1. unfold bind at 1. rewrite (package_dir_memo _ _ _ Hd). done.
Qed.


(** [fetch_source] on a new object. *)
Lemma fetch_source_fresh (u r : string) (w : World) :
  fetch_source (SCM_init u r, w) =
  match repo_name_of u with
  | Err e => (Err e, (set_archives_dir (Some (archives_dir_of w)) (SCM_init u r), w))
  | Ok n =>
      match os.makedirs w (package_dir_of w n) with
      | Err e => (Err e, (half_memoized u r w n, w))
      | Ok w1 =>
          match cache_state w1 (archive_path_of w n r) with
          | Hit => (Ok PyNone, (memoized u r w n, w1))
          | Miss => regenerate (package_dir_of w n) (memoized u r w n, w1)
          | Unreadable e => (Err e, (memoized u r w n, w1))
          end
      end
  end.
Proof.
  pose proof (archive_path_fresh u r w) as Hfresh.
  destruct (repo_name_of u) as [n|e].
  - destruct (os.makedirs w (package_dir_of w n)) as [w1|e] eqn:Emk.
    + by apply fetch_source_after; [|done|apply archive_path_of_truthy|done].
    + unfold fetch_source. unfold bind at 1. by rewrite Hfresh.
  - unfold fetch_source. unfold bind at 1. by rewrite Hfresh.
Qed.


(** ** What the library calls change *)

Lemma wt_step_refl (w : World) : wt_step [] w w.
Proof. unfold wt_step. destruct w; simpl. by rewrite app_nil_r. Qed.

Lemma wt_step_tmp (t : option (list (string * Node))) (w : World) :
  wt_step [] w (with_tmp t w).
Proof. unfold wt_step. destruct w; simpl. by rewrite app_nil_r. Qed.

Lemma wt_step_trans (e1 e2 : list NetEvent) (w1 w2 w3 : World) :
  wt_step e1 w1 w2 → wt_step e2 w2 w3 → wt_step (e1 ++ e2) w1 w3.
Proof.
  unfold wt_step. intros H1 H2. rewrite H2. rewrite H1. simpl. by rewrite app_assoc.
Qed.

Lemma wt_step_nil_l (e : list NetEvent) (w1 w2 w3 : World) :
  wt_step [] w1 w2 → wt_step e w2 w3 → wt_step e w1 w3.
Proof. intros H1 H2. by apply (wt_step_trans [] e w1 w2 w3). Qed.

Lemma wt_step_nil_r (e : list NetEvent) (w1 w2 w3 : World) :
  wt_step e w1 w2 → wt_step [] w2 w3 → wt_step e w1 w3.
Proof.
  intros H1 H2. rewrite <- (app_nil_r e). by apply (wt_step_trans e [] w1 w2 w3).
Qed.

Lemma wt_step_log (e : NetEvent) (w : World) :
  wt_step [e] w (with_net_log (net_log w ++ [e]) w).
Proof. unfold wt_step. by destruct w. Qed.

Section WtStepFields.
Context {evs : list NetEvent} {w w' : World} (H : wt_step evs w w').

Lemma wt_step_fs : fs w' = fs w.
Proof. by rewrite H. Qed.
Lemma wt_step_environ : environ w' = environ w.
Proof. by rewrite H. Qed.
Lemma wt_step_cwd : cwd w' = cwd w.
Proof. by rewrite H. Qed.
Lemma wt_step_config : cachito_sources_dir w' = cachito_sources_dir w.
Proof. by rewrite H. Qed.
Lemma wt_step_suffix : mkdtemp_suffix w' = mkdtemp_suffix w.
Proof. by rewrite H. Qed.
Lemma wt_step_net_log : net_log w' = net_log w ++ evs.
Proof. by rewrite H. Qed.
Lemma wt_step_same_files : same_files w w'.
Proof. split; [apply wt_step_fs | apply wt_step_cwd]. Qed.
End WtStepFields.

Ltac st_unfold :=
  cbv [bind ret raise get put modify of_res try_except try_finally] in *.

Section LibraryFrames.

Implicit Types (w : World) (p : string).

Lemma read_frame p w r w' : tempfile.read p w = (r, w') → w' = w ∧ ∃ n, r = Ok n.
Proof. unfold tempfile.read. intros [= <- <-]. eauto. Qed.

Lemma write_frame p v w r w' : tempfile.write p v w = (r, w') → wt_step [] w w'.
Proof.
  unfold tempfile.write. repeat case_match; intros [= <- <-];
    auto using wt_step_refl, wt_step_tmp.
Qed.

Lemma open_r_gz_frame p w r w' : tarfile.open_r_gz p w = (r, w') → w' = w.
Proof. unfold tarfile.open_r_gz. by repeat case_match; intros [= <- <-]. Qed.

Lemma extractall_frame ms p w r w' :
  tarfile.extractall ms p w = (r, w') → wt_step [] w w'.
Proof.
  unfold tarfile.extractall. st_unfold. unfold tempfile.read.
  destruct (match tmp w with Some _ => _ | None => _ end); [|intros [= <- <-]; apply wt_step_refl].
  destruct (tarfile.extract_all n ms); [apply write_frame|intros [= <- <-]; apply wt_step_refl].
Qed.

Lemma db_at_frame p w r w' : git.db_at p w = (r, w') → w' = w.
Proof.
  unfold git.db_at. st_unfold. unfold tempfile.read.
  by repeat case_match; intros [= <- <-].
Qed.

Lemma set_db_frame p db w r w' : git.set_db p db w = (r, w') → wt_step [] w w'.
Proof.
  unfold git.set_db. st_unfold. unfold tempfile.read.
  repeat case_match; try (intros [= <- <-]; apply wt_step_refl); apply write_frame.
Qed.

Lemma open_repo_frame p w r w' : git.open_repo p w = (r, w') → w' = w.
Proof.
  unfold git.open_repo. st_unfold.
  destruct (git.db_at p w) as [[db|e] w1] eqn:E; apply db_at_frame in E as ->;
    by intros [= <- <-].
Qed.

Lemma commit_frame repo rev w r w' : git.commit repo rev w = (r, w') → w' = w.
Proof.
  unfold git.commit. st_unfold.
  destruct (git.db_at _ w) as [[db|e] w1] eqn:E; apply db_at_frame in E as ->;
    by repeat case_match; intros [= <- <-].
Qed.

Lemma set_head_reference_frame repo c w r w' :
  git.set_head_reference repo c w = (r, w') → wt_step [] w w'.
Proof.
  unfold git.set_head_reference. st_unfold.
  destruct (git.db_at _ w) as [[db|e] w1] eqn:E; apply db_at_frame in E as ->;
    [apply set_db_frame | intros [= <- <-]; apply wt_step_refl].
Qed.

Lemma head_reset_frame repo w r w' : git.head_reset repo w = (r, w') → wt_step [] w w'.
Proof.
  unfold git.head_reset. st_unfold.
  destruct (git.db_at _ w) as [[db|e] w1] eqn:E; apply db_at_frame in E as ->;
    [|intros [= <- <-]; apply wt_step_refl].
  destruct (g_head db); [|intros [= <- <-]; apply wt_step_refl].
  unfold tempfile.read at 1. apply write_frame.
Qed.

(** A clone logs one clone of the URL, whether it succeeds or not. *)
Lemma clone_from_frame u p w r w' :
  git.clone_from u p w = (r, w') → wt_step [NetClone u] w w'.
Proof.
  unfold git.clone_from, git.log_net. st_unfold.
  destruct (remotes _ !! u) as [revs|]; [|intros [= <- <-]; apply wt_step_log].
  destruct (tempfile.write _ _ _) as [[[]|e] w1] eqn:E; apply write_frame in E;
    intros [= <- <-]; eapply wt_step_nil_r; eauto using wt_step_log.
Qed.

(** A fetch logs at most one fetch, and no clone. *)
Lemma fetch_frame repo w r w' :
  git.fetch repo w = (r, w') →
  ∃ evs, wt_step evs w w' ∧ (evs = [] ∨ ∃ u, evs = [NetFetch u]).
Proof.
  unfold git.fetch, git.log_net. st_unfold.
  destruct (git.db_at _ w) as [[db|e] w1] eqn:E; apply db_at_frame in E as ->;
    [|intros [= <- <-]; exists []; eauto using wt_step_refl].
  destruct (g_origin db) as [u|]; [|intros [= <- <-]; exists []; eauto using wt_step_refl].
  exists [NetFetch u]. split; [|by eauto].
  revert H. destruct (remotes _ !! u) as [revs|]; [|intros [= <- <-]; apply wt_step_log].
  intros E. apply set_db_frame in E. eapply wt_step_nil_r; eauto using wt_step_log.
Qed.

End LibraryFrames.


(** ** The two ways to a working tree *)

Lemma seed_repo_frame prev t w r w' : seed_repo prev t w = (r, w') → wt_step [] w w'.
Proof.
  unfold seed_repo. st_unfold.
  destruct (tarfile.open_r_gz prev w) as [[ms|e] w1] eqn:E1; apply open_r_gz_frame in E1 as ->;
    [|intros [= <- <-]; apply wt_step_refl].
  destruct (tarfile.extractall ms t w) as [[[]|e] w2] eqn:E2; apply extractall_frame in E2;
    [|by intros [= <- <-]].
  destruct (git.open_repo _ w2) as [r3 w3] eqn:E3; apply open_repo_frame in E3 as ->.
  by intros [= <- <-].
Qed.

Lemma reset_head_frame rev repo w r w' : reset_head rev repo w = (r, w') → wt_step [] w w'.
Proof.
  unfold reset_head. st_unfold.
  destruct (git.commit repo rev w) as [[c|e] w1] eqn:E1; apply commit_frame in E1 as ->;
    [|intros [= <- <-]; apply wt_step_refl].
  destruct (git.set_head_reference repo c w) as [[[]|e] w2] eqn:E2;
    apply set_head_reference_frame in E2; [|by intros [= <- <-]].
  intros E3%head_reset_frame. by eapply wt_step_nil_l.
Qed.

Lemma _reset_git_head_unfold (repo : git.Repo) (self : SCM) (w : World) :
  _reset_git_head repo (self, w) =
  match reset_head (ref self) repo w with
  | (Ok _, w') => (Ok tt, (self, w'))
  | (Err _, w') => (Err (CachitoError (checkout_failed (ref self))), (self, w'))
  end.
Proof.
  unfold _reset_git_head, reset_head. cbv [bind get_self try_except lift raise fst].
  destruct (git.commit repo (ref self) w) as [[c|e] w1]; [|done].
  destruct (git.set_head_reference repo c w1) as [[[]|e] w2]; [|done].
  by destruct (git.head_reset repo w2) as [[[]|e] w3].
Qed.

Lemma _create_archive_unfold (from_dir : string) (self : SCM) (w : World) (p : string) :
  _archive_path self = Some p → Str.truthy p = true →
  _create_archive from_dir (self, w) =
  match tarfile.write_gz p from_dir "app" w with
  | (r, w') => (r, (self, w'))
  end.
Proof.
  intros Hp Ht. unfold _create_archive. unfold bind at 1.
  rewrite (archive_path_memo _ _ _ Hp Ht). unfold lift.
  by destruct (tarfile.write_gz _ _ _ _).
Qed.

Lemma update_and_archive_unfold (prev : string) (self : SCM) (w : World) (p : string) :
  _archive_path self = Some p → Str.truthy p = true →
  update_and_archive prev (self, w) =
  match seed_repo prev (tempfile.temp_dir w) (with_tmp (Some []) w) with
  | (Err e, w2) => (Err e, (self, with_tmp (tmp w) w2))
  | (Ok repo, w2) =>
      match git.fetch repo w2 with
      | (Err _, w3) => (Err (CachitoError fetch_failed), (self, with_tmp (tmp w) w3))
      | (Ok _, w3) => reset_and_archive p (tmp w) repo self w3
      end
  end.
Proof.
  intros Hp Ht.
  unfold update_and_archive, tempfile.TemporaryDirectory, seed_repo, reset_and_archive.
  cbv [bind get_world lift modify try_finally try_except raise snd fst].
  destruct (tarfile.open_r_gz prev _) as [[ms|e] w1]; [|done].
  destruct (tarfile.extractall ms _ w1) as [[[]|e] w2]; [|done].
  destruct (git.open_repo _ w2) as [[repo|e] w3]; [|done].
  destruct (git.fetch repo w3) as [[[]|e] w4]; [|done].
  rewrite _reset_git_head_unfold.
  destruct (reset_head (ref self) repo w4) as [[[]|e] w5]; [|done].
  rewrite (_create_archive_unfold _ _ _ _ Hp Ht).
  by destruct (tarfile.write_gz _ _ _ _).
Qed.

Lemma clone_and_archive_unfold (self : SCM) (w : World) (p : string) :
  _archive_path self = Some p → Str.truthy p = true →
  clone_and_archive (self, w) =
  match git.clone_from (url self) (os_path.join (tempfile.temp_dir w) ["repo"])
          (clone_world w) with
  | (Err _, w2) => (Err (CachitoError clone_failed), (self, with_tmp (tmp w) w2))
  | (Ok repo, w2) => reset_and_archive p (tmp w) repo self w2
  end.
Proof.
  intros Hp Ht.
  unfold clone_and_archive, tempfile.TemporaryDirectory, reset_and_archive, clone_world.
  cbv [bind get_world get_self lift modify try_finally try_except raise snd fst].
  destruct (git.clone_from _ _ _) as [[repo|e] w2]; [|done].
  rewrite _reset_git_head_unfold.
  destruct (reset_head (ref self) repo w2) as [[[]|e] w5]; [|done].
  rewrite (_create_archive_unfold _ _ _ _ Hp Ht).
  by destruct (tarfile.write_gz _ _ _ _).
Qed.

Lemma find_previous_frame (pd : string) (w : World) r w' :
  find_previous pd w = (r, w') → w' = w.
Proof.
  unfold find_previous, max_by_key. st_unfold.
  assert (Hfrom : ∀ l best kb r w', max_from os_path_getctime best kb l w = (r, w') → w' = w).
  { induction l as [|x l IH]; intros best kb r0 w0; simpl; st_unfold; [by intros [= _ <-]|].
    unfold os_path_getctime at 1. destruct (os.getctime w x); [|by intros [= _ <-]].
    destruct (_ <? _)%Z; apply IH. }
  destruct (glob.glob w _) as [|x l]; [by intros [= _ <-]|].
  unfold os_path_getctime at 1. destruct (os.getctime w x); [|by intros [= _ <-]].
  destruct (max_from _ _ _ _ _) as [[m|e] w1] eqn:E; apply Hfrom in E as ->;
    by intros [= _ <-].
Qed.

Lemma regenerate_unfold (pd : string) (self : SCM) (w : World) :
  regenerate pd (self, w) =
  match find_previous pd w with
  | (Err e, _) => (Err e, (self, w))
  | (Ok (Some prev), _) =>
      if Str.truthy prev
      then match update_and_archive prev (self, w) with
           | (Ok _, s) => (Ok PyNone, s)
           | (Err e, s) => (Err e, s)
           end
      else match clone_and_archive (self, w) with
           | (Ok _, s) => (Ok PyNone, s)
           | (Err e, s) => (Err e, s)
           end
  | (Ok None, _) =>
      match clone_and_archive (self, w) with
      | (Ok _, s) => (Ok PyNone, s)
      | (Err e, s) => (Err e, s)
      end
  end.
Proof.
  unfold regenerate. unfold bind at 1. unfold lift at 1.
  destruct (find_previous pd w) as [[[prev|]|e] w1] eqn:E; apply find_previous_frame in E as ->;
    [|unfold bind, ret; by destruct (clone_and_archive _) as [[[]|?] ?]|done].
  destruct (Str.truthy prev); unfold bind, ret.
  - by destruct (update_and_archive _ _) as [[[]|?] ?].
  - by destruct (clone_and_archive _) as [[[]|?] ?].
Qed.


(** ** Writing the archive *)

Section WriteArchive.

Implicit Types (w : World) (p : string) (loc : Loc).

Lemma read_put from loc c w :
  tempfile.read from (os.put loc c w) = ((tempfile.read from w).1, os.put loc c w).
Proof. done. Qed.

Lemma read_total from w : ∃ n, tempfile.read from w = (Ok n, w).
Proof. unfold tempfile.read. eauto. Qed.

Lemma write_gz_ok p from arc w w' :
  tarfile.write_gz p from arc w = (Ok tt, w') →
  ∃ loc n, os.resolve w p = Ok loc ∧ os.content_at w loc ≠ Some CDir
           ∧ tempfile.read from w = (Ok (Some n), w)
           ∧ w' = archived loc (tarfile.add n arc) w.
Proof.
  unfold tarfile.write_gz, os.open_w. st_unfold.
  destruct (os.resolve w p) as [loc|e] eqn:Er; [|done].
  destruct (read_total from w) as [n Hn].
  intros H. exists loc.
  assert (Hc : os.content_at w loc ≠ Some CDir) by (intros Hc; by rewrite Hc in H).
  assert (H' : match n with
               | Some n => (Ok (), archived loc (tarfile.add n arc) w)
               | None => (Err (FileNotFoundError from),
                          os.put loc (CFile (Garbage "")) w)
               end = (Ok (), w')).
  { destruct (os.content_at w loc) as [[|d]|]; [done| |];
      rewrite read_put, Hn in H; simpl in H; by destruct n. }
  destruct n as [n|]; [|done]. injection H' as <-. by exists n.
Qed.


Lemma content_at_archived loc ms w l :
  os.content_at w loc ≠ Some CDir →
  os.content_at (archived loc ms w) l =
  if decide (loc = l) then Some (CFile (TarGz ms)) else os.content_at w l.
Proof.
  intros Hloc. unfold archived. rewrite !content_at_put.
  repeat case_decide; subst; done.
Qed.

Lemma archived_dirs loc ms w l :
  os.content_at w loc ≠ Some CDir →
  os.content_at w l = Some CDir → os.content_at (archived loc ms w) l = Some CDir.
Proof.
  intros Hloc Hl. rewrite content_at_archived by done. case_decide; congruence.
Qed.

Lemma archived_readable p loc ms w :
  os.resolve w p = Ok loc → os.content_at w loc ≠ Some CDir →
  os.open_r (archived loc ms w) p = Ok (TarGz ms).
Proof.
  intros Hr Hloc. unfold os.open_r, os.stat.
  rewrite (resolve_stable w _ p loc Hr); [|done|by intros; apply archived_dirs].
  rewrite content_at_archived by done. by case_decide.
Qed.


Lemma archived_process loc ms w :
  environ (archived loc ms w) = environ w ∧ net_log (archived loc ms w) = net_log w
  ∧ tmp (archived loc ms w) = tmp w ∧ cwd (archived loc ms w) = cwd w
  ∧ cachito_sources_dir (archived loc ms w) = cachito_sources_dir w
  ∧ remotes (archived loc ms w) = remotes w
  ∧ mkdtemp_suffix (archived loc ms w) = mkdtemp_suffix w.
Proof. done. Qed.

End WriteArchive.


(** ** The runs of [fetch_source] *)

Lemma reset_and_archive_run p t0 repo self w r s :
  reset_and_archive p t0 repo self w = (r, s) →
  ∃ w5, Finished p (ref self) repo w r w5 ∧ s = (self, with_tmp t0 w5).
Proof.
  unfold reset_and_archive.
  destruct (reset_head _ _ _) as [[[]|e] w4] eqn:E1.
  - destruct (tarfile.write_gz _ _ _ _) as [r' w5] eqn:E2. intros [= <- <-].
    exists w5. split; [|done]. by eapply FinWritten.
  - intros [= <- <-]. exists w4. split; [|done]. by eapply FinBadRef.
Qed.

Lemma clone_and_archive_run self w p r s :
  _archive_path self = Some p → Str.truthy p = true →
  no_seed (default "" (_package_dir self)) w →
  clone_and_archive (self, w) = (r, s) →
  ∃ w5, Regenerated (default "" (_package_dir self)) p (url self) (ref self) w r w5
        ∧ s = (self, with_tmp (tmp w) w5).
Proof.
  intros Hp Ht Hno. rewrite (clone_and_archive_unfold _ _ _ Hp Ht).
  destruct (git.clone_from _ _ _) as [[repo|e] w2] eqn:E1.
  - intros (w5 & Hfin & ->)%reset_and_archive_run. exists w5. split; [|done].
    by eapply RegCloned.
  - intros [= <- <-]. exists w2. split; [|done]. by eapply RegCloneFail.
Qed.

Lemma update_and_archive_run prev pd self w p r s :
  _archive_path self = Some p → Str.truthy p = true →
  find_previous pd w = (Ok (Some prev), w) → Str.truthy prev = true →
  update_and_archive prev (self, w) = (r, s) →
  ∃ w5, Regenerated pd p (url self) (ref self) w r w5 ∧ s = (self, with_tmp (tmp w) w5).
Proof.
  intros Hp Ht Hprev Htp. rewrite (update_and_archive_unfold _ _ _ _ Hp Ht).
  destruct (seed_repo _ _ _) as [[repo|e] w2] eqn:E1.
  - destruct (git.fetch repo w2) as [[[]|e] w3] eqn:E2.
    + intros (w5 & Hfin & ->)%reset_and_archive_run. exists w5. split; [|done].
      by eapply RegUpdated.
    + intros [= <- <-]. exists w3. split; [|done]. by eapply RegFetchFail.
  - intros [= <- <-]. exists w2. split; [|done]. by eapply RegSeedFail.
Qed.

Lemma regenerate_run pd self w p r s :
  _archive_path self = Some p → Str.truthy p = true → _package_dir self = Some pd →
  regenerate pd (self, w) = (r, s) →
  ∃ r0 w5, Regenerated pd p (url self) (ref self) w r0 w5
           ∧ r = to_none r0 ∧ s = (self, with_tmp (tmp w) w5).
Proof.
  intros Hp Ht Hd. rewrite regenerate_unfold.
  assert (Hclone : no_seed pd w →
    match clone_and_archive (self, w) with
    | (Ok _, s0) => (Ok PyNone, s0)
    | (Err e, s0) => (Err e, s0)
    end = (r, s) →
    ∃ r0 w5, Regenerated pd p (url self) (ref self) w r0 w5
             ∧ r = to_none r0 ∧ s = (self, with_tmp (tmp w) w5)).
  { intros Hno. destruct (clone_and_archive _) as [r0 s0] eqn:E.
    apply clone_and_archive_run with (p := p) in E as (w5 & Hreg & ->);
      [|done|done|by rewrite Hd]. rewrite Hd in Hreg. simpl in Hreg.
    destruct r0 as [[]|e]; intros [= <- <-]; eexists _, w5; split_and!; done. }
  destruct (find_previous pd w) as [[[prev|]|e] w1] eqn:E.
  - pose proof (find_previous_frame _ _ _ _ E) as ->.
    destruct (Str.truthy prev) eqn:Etp.
    + destruct (update_and_archive _ _) as [r0 s0] eqn:Eu.
      eapply update_and_archive_run in Eu as (w5 & Hreg & ->); [|done..].
      destruct r0 as [[]|e]; intros [= <- <-]; eexists _, w5; split_and!; done.
    + apply Hclone. right. eauto.
  - pose proof (find_previous_frame _ _ _ _ E) as ->. apply Hclone. by left.
  - pose proof (find_previous_frame _ _ _ _ E) as ->. intros [= <- <-].
    exists (Err e), w. split_and!; [by apply RegNoList | done | by rewrite with_tmp_same].
Qed.

Lemma fetch_source_run (u r : string) (w : World) res self' w' :
  fetch_source (SCM_init u r, w) = (res, (self', w')) → Fetched u r w res self' w'.
Proof.
  rewrite fetch_source_fresh.
  destruct (repo_name_of u) as [n|e] eqn:En; [|intros [= <- <- <-]; by apply FetBadUrl].
  destruct (os.makedirs _ _) as [w1|e] eqn:Emk; [|intros [= <- <- <-]; by eapply FetNoDir].
  destruct (cache_state _ _) eqn:Ec.
  - intros [= <- <- <-]. by eapply FetHit.
  - intros (r0 & w5 & Hreg & -> & [= -> ->])%(regenerate_run _ _ _ (archive_path_of w n r));
      [|done|apply archive_path_of_truthy|done].
    by eapply FetMiss.
  - intros [= <- <- <-]. by eapply FetUnreadable.
Qed.


(** ** What every run keeps *)

Lemma settled_refl (w : World) : settled w w.
Proof. by split. Qed.

Lemma settled_trans (w1 w2 w3 : World) : settled w1 w2 → settled w2 w3 → settled w1 w3.
Proof. intros [] []. split; try congruence. auto. Qed.

Lemma grown_settled (w w' : World) : grown w w' → settled w w'.
Proof. intros [(? & ? & ? & ?) _ K _ _]. split; try done. intros l. apply K. Qed.

Lemma wt_step_settled (evs : list NetEvent) (w w' : World) : wt_step evs w w' → settled w w'.
Proof.
  intros H. split; [by rewrite H..|]. intros l.
  by rewrite (content_at_ext w w' l (wt_step_fs H)).
Qed.

Lemma with_tmp_settled t (w : World) : settled w (with_tmp t w).
Proof. by split. Qed.

Lemma clone_world_settled (w : World) : settled w (clone_world w).
Proof. by split. Qed.

Lemma put_file_settled (loc : Loc) (d : FileData) (w : World) :
  os.content_at w loc ≠ Some CDir → settled w (os.put loc (CFile d) w).
Proof.
  intros Hloc. split; try done. intros l Hl. rewrite content_at_put.
  repeat case_decide; subst; done.
Qed.

(** The ways [write_gz] ends. *)
Lemma write_gz_cases (p from arc : string) (w : World) r w' :
  tarfile.write_gz p from arc w = (r, w') →
  (w' = w ∧ ∃ e, r = Err e)
  ∨ (∃ loc, os.resolve w p = Ok loc ∧ os.content_at w loc ≠ Some CDir
            ∧ ((w' = os.put loc (CFile (Garbage "")) w ∧ r = Err (FileNotFoundError from))
               ∨ (r = Ok tt ∧ ∃ n, tempfile.read from w = (Ok (Some n), w)
                                   ∧ w' = archived loc (tarfile.add n arc) w))).
Proof.
  destruct r as [[]|e].
  - intros (loc & n & ? & ? & ? & ->)%write_gz_ok. right. exists loc. eauto 10.
  - unfold tarfile.write_gz, os.open_w. st_unfold.
    destruct (os.resolve w p) as [loc|e'] eqn:Er; [|intros [= <- <-]; eauto].
    destruct (read_total from w) as [n Hn].
    destruct (os.content_at w loc) as [[|d]|] eqn:Ec; [intros [= <- <-]; eauto| |];
      rewrite read_put, Hn; simpl; (destruct n; [done|]); intros [= <- <-];
      right; exists loc; (split_and!; [done|congruence|by left]).
Qed.

Lemma write_gz_settled (p from arc : string) (w : World) r w' :
  tarfile.write_gz p from arc w = (r, w') → settled w w'.
Proof.
  intros [[-> _]|(loc & _ & Hloc & [[-> _]|(_ & n & _ & ->)])]%write_gz_cases.
  - apply settled_refl.
  - by apply put_file_settled.
  - split; try done. intros l. by apply archived_dirs.
Qed.

Lemma write_gz_process (p from arc : string) (w : World) r w' :
  tarfile.write_gz p from arc w = (r, w') →
  environ w' = environ w ∧ net_log w' = net_log w.
Proof.
  by intros [[-> _]|(loc & _ & Hloc & [[-> _]|(_ & n & _ & ->)])]%write_gz_cases.
Qed.

Lemma finished_settled p rev repo w3 r w5 : Finished p rev repo w3 r w5 → settled w3 w5.
Proof.
  intros [e w4 H1|w4 r' w5' H1 H2].
  - eapply wt_step_settled, reset_head_frame, H1.
  - eapply settled_trans; [eapply wt_step_settled, reset_head_frame, H1|].
    eapply write_gz_settled, H2.
Qed.

Lemma finished_process p rev repo w3 r w5 :
  Finished p rev repo w3 r w5 → environ w5 = environ w3 ∧ net_log w5 = net_log w3.
Proof.
  intros [e w4 H1|w4 r' w5' H1 H2].
  - apply reset_head_frame in H1.
    rewrite (wt_step_environ H1), (wt_step_net_log H1). by rewrite app_nil_r.
  - apply reset_head_frame in H1. apply write_gz_process in H2 as [-> ->].
    rewrite (wt_step_environ H1), (wt_step_net_log H1). by rewrite app_nil_r.
Qed.

Lemma regenerated_settled pd p u rev w r w5 :
  Regenerated pd p u rev w r w5 → settled w w5.
Proof.
  intros [e H|prev e w2 _ _ H|prev repo w2 e w3 _ _ H1 H2|prev repo w2 w3 r' w5' _ _ H1 H2 H3
          |e w2 _ H|repo w2 r' w5' _ H1 H2].
  - apply settled_refl.
  - eapply settled_trans; [apply (with_tmp_settled (Some []))|].
    eapply wt_step_settled, seed_repo_frame, H.
  - eapply settled_trans; [apply (with_tmp_settled (Some []))|].
    eapply settled_trans; [eapply wt_step_settled, seed_repo_frame, H1|].
    apply fetch_frame in H2 as (evs & H2 & _). eapply wt_step_settled, H2.
  - eapply settled_trans; [apply (with_tmp_settled (Some []))|].
    eapply settled_trans; [eapply wt_step_settled, seed_repo_frame, H1|].
    apply fetch_frame in H2 as (evs & H2 & _).
    eapply settled_trans; [eapply wt_step_settled, H2|]. eapply finished_settled, H3.
  - eapply settled_trans; [apply clone_world_settled|].
    eapply wt_step_settled, clone_from_frame, H.
  - eapply settled_trans; [apply clone_world_settled|].
    eapply settled_trans; [eapply wt_step_settled, clone_from_frame, H1|].
    eapply finished_settled, H2.
Qed.

Lemma regenerated_process pd p u rev w r w5 :
  Regenerated pd p u rev w r w5 →
  (updated_process w w5 ∧ find_previous pd w ≠ (Ok None, w))
  ∨ (cloned_process u w w5 ∧ no_seed pd w).
Proof.
  assert (Hupd : ∀ w2 w3 evs, wt_step [] (with_tmp (Some []) w) w2 → wt_step evs w2 w3 →
                 (evs = [] ∨ ∃ u', evs = [NetFetch u']) → updated_process w w3).
  { intros w2 w3 evs H1 H2 Hevs. unfold updated_process.
    rewrite (wt_step_environ H2), (wt_step_net_log H2),
      (wt_step_environ H1), (wt_step_net_log H1), app_nil_r. simpl.
    split; [done|]. destruct Hevs as [->|[u' ->]]; [rewrite app_nil_r|]; eauto. }
  assert (Hcl : ∀ w2, wt_step [NetClone u] (clone_world w) w2 → cloned_process u w w2).
  { intros w2 H. unfold cloned_process.
    by rewrite (wt_step_environ H), (wt_step_net_log H). }
  intros [e H|prev e w2 Hf _ H|prev repo w2 e w3 Hf _ H1 H2
          |prev repo w2 w3 r' w5' Hf _ H1 H2 H3|e w2 Hno H|repo w2 r' w5' Hno H1 H2].
  - left. split; [split; auto|congruence].
  - left. split; [|congruence]. apply seed_repo_frame in H.
    eapply (Hupd w2 w2 []); eauto using wt_step_refl.
  - left. split; [|congruence]. apply seed_repo_frame in H1.
    apply fetch_frame in H2 as (evs & H2 & Hevs). by eapply Hupd.
  - left. split; [|congruence]. apply seed_repo_frame in H1.
    apply fetch_frame in H2 as (evs & H2 & Hevs).
    apply finished_process in H3 as [H3 H4]. unfold updated_process. rewrite H3, H4.
    by eapply Hupd.
  - right. split; [|done]. apply clone_from_frame in H. by apply Hcl.
  - right. split; [|done]. apply clone_from_frame in H1.
    apply finished_process in H2 as [H2 H3].
    unfold cloned_process. rewrite H2, H3. by apply Hcl.
Qed.

Lemma makedirs_grown (w w1 : World) (p : string) : os.makedirs w p = Ok w1 → grown w w1.
Proof. apply mkdirs_grown. Qed.

Lemma fetched_settled u r w res self' w' : Fetched u r w res self' w' → settled w w'.
Proof.
  intros [e _|n e _ _|n w1 _ Hmk _|n w1 e _ Hmk _|n w1 r0 w5 _ Hmk _ Hreg];
    try apply settled_refl; try by eapply grown_settled, makedirs_grown.
  eapply settled_trans; [by eapply grown_settled, makedirs_grown|].
  eapply settled_trans; [by eapply regenerated_settled|]. apply with_tmp_settled.
Qed.


(** ** The errors that leave [fetch_source] *)

Section ErrorKinds.

Implicit Types (w : World) (p : string) (e : Exn).



















End ErrorKinds.

(** ** Successful runs *)

Lemma cache_state_hit (w : World) (p : string) :
  cache_state w p = Hit ↔ valid_archive_at w p.
Proof.
  unfold cache_state, valid_archive_at, os.path_exists, os.open_r. split.
  - destruct (os.stat w p) as [[|[ms|b]]|e]; try done. eauto.
  - intros [ms H]. by destruct (os.stat w p) as [[|[ms'|b]]|e].
Qed.

(** The world in which a method writes the archive has the files the
    method started from. *)
Lemma regenerated_start pd p u rev w r w5 :
  Regenerated pd p u rev w r w5 →
  r = Ok tt →
  ∃ repo w3, fs w3 = fs w ∧ cwd w3 = cwd w ∧ Finished p rev repo w3 (Ok tt) w5.
Proof.
  intros [e H|prev e w2 _ _ H|prev repo w2 e w3 _ _ H1 H2|prev repo w2 w3 r' w5' _ _ H1 H2 H3
          |e w2 _ H|repo w2 r' w5' _ H1 H2]; try done; intros ->.
  - apply seed_repo_frame in H1. apply fetch_frame in H2 as (evs & H2 & _).
    exists repo, w3. split_and!; [|by rewrite (wt_step_cwd H2), (wt_step_cwd H1)|done].
    by rewrite (wt_step_fs H2), (wt_step_fs H1).
  - apply clone_from_frame in H1. exists repo, w2.
    split_and!; [by rewrite (wt_step_fs H1)|by rewrite (wt_step_cwd H1)|done].
Qed.

Lemma finished_ok p rev repo w3 w5 :
  Finished p rev repo w3 (Ok tt) w5 →
  ∃ w4 loc src,
    reset_head rev repo w3 = (Ok tt, w4)
    ∧ os.resolve w4 p = Ok loc ∧ os.content_at w4 loc ≠ Some CDir
    ∧ tempfile.read (git.working_dir repo) w4 = (Ok (Some src), w4)
    ∧ w5 = archived loc (tarfile.add src "app") w4.
Proof.
  inversion 1 as [|w4 r' w5' H1 H2]; subst.
  apply write_gz_ok in H2 as (loc & src & ? & ? & ? & ->). by exists w4, loc, src.
Qed.

Lemma finished_valid p rev repo w3 w5 t :
  Finished p rev repo w3 (Ok tt) w5 → valid_archive_at (with_tmp t w5) p.
Proof.
  intros (w4 & loc & src & _ & Hr & Hc & _ & ->)%finished_ok.
  exists (tarfile.add src "app").
  rewrite (open_r_ext (archived loc (tarfile.add src "app") w4)) by done.
  by apply archived_readable.
Qed.




(** ** The cache hit and the second call *)

Lemma memoized_settled (u r n : string) (w w' : World) :
  settled w w' → memoized u r w' n = memoized u r w n.
Proof.
  intros [Hc Hs _ _ _].
  unfold memoized, archive_path_of, package_dir_of, archives_dir_of. by rewrite Hc, Hs.
Qed.

Lemma settled_paths (n r : string) (w w' : World) :
  settled w w' → package_dir_of w' n = package_dir_of w n
                 ∧ archive_path_of w' n r = archive_path_of w n r.
Proof.
  intros [Hc Hs _ _ _].
  unfold archive_path_of, package_dir_of, archives_dir_of. by rewrite Hc, Hs.
Qed.

(** After a run that returned, a further run is a cache hit that changes
    nothing. *)
Lemma fetched_then_hit (u r : string) (w : World) v self' w' :
  Fetched u r w (Ok v) self' w' →
  ∃ n, repo_name_of u = Ok n ∧ self' = memoized u r w n
       ∧ os.makedirs w' (package_dir_of w' n) = Ok w'
       ∧ cache_state w' (archive_path_of w' n r) = Hit
       ∧ memoized u r w' n = self'.
Proof.
  intros Hrun.
  assert (Hset : settled w w') by by eapply fetched_settled.
  inversion Hrun as [|?|n w1 Hn Hmk Hcs|?|n w1 r0 w5 Hn Hmk Hcs Hreg]; subst.
  - exists n. destruct (settled_paths n r _ _ Hset) as [-> ->].
    split_and!; [done..| | done | by apply memoized_settled].
    eapply makedirs_again; [exact Hmk|apply (settled_cwd _ _ Hset)|auto].
  - destruct r0 as [[]|e]; simplify_eq/=.
    exists n. destruct (settled_paths n r _ _ Hset) as [-> ->].
    assert (Hs1 : settled w1 (with_tmp (tmp w1) w5)).
    { eapply settled_trans; [by eapply regenerated_settled|apply with_tmp_settled]. }
    split_and!; [done..| | | by apply memoized_settled].
    + eapply makedirs_again; [exact Hmk|apply (settled_cwd _ _ Hset)|apply Hs1].
    + apply cache_state_hit.
      destruct (regenerated_start _ _ _ _ _ _ _ Hreg eq_refl) as (repo & w3 & _ & _ & Hfin).
      by eapply finished_valid.
Qed.




(** ** The process state *)

(** C8. Whatever a run of [fetch_source] returns or raises, the temporary
    area, the current directory and the configuration are, at the end,
    what they were.  The process environment is the one thing that can
    stay changed: a run that goes to clone sets [GIT_TERMINAL_PROMPT] to
    [0] in it and leaves it set; a run that does not clone (a cache hit, an
    update from a seed, an early failure) leaves the environment as it
    was. *)
Theorem fetch_source_process_state (u r : string) (w : World) res self' w' :
  fetch_source (SCM_init u r, w) = (res, (self', w')) →
  tmp w' = tmp w ∧ cwd w' = cwd w ∧ cachito_sources_dir w' = cachito_sources_dir w
  ∧ (updated_process w w' ∨ cloned_process u w w').
Proof.
  intros Hrun%fetch_source_run.
  pose proof (fetched_settled _ _ _ _ _ _ Hrun) as [Hcwd Hcfg _ _ _].
  split_and!; try done.
  - inversion Hrun as [|?|n w1 Hn Hmk Hc|n w1 e Hn Hmk Hc|n w1 r0 w5 Hn Hmk Hc Hreg];
      subst; try done;
      by destruct (makedirs_grown _ _ _ Hmk) as [_ (_ & _ & ?) _ _ _].
  - assert (Hgrown : ∀ w1, grown w w1 → updated_process w w1).
    { intros w1 [_ (He & Hl & _) _ _ _]. split; auto. }
    inversion Hrun as [|?|n w1 Hn Hmk Hc|n w1 e Hn Hmk Hc|n w1 r0 w5 Hn Hmk Hc Hreg];
      subst; try (left; split; by auto);
      try (left; by eapply Hgrown, makedirs_grown).
    destruct (makedirs_grown _ _ _ Hmk) as [_ (He & Hl & _) _ _ _].
    destruct (regenerated_process _ _ _ _ _ _ _ Hreg) as [[[E L] _]|[[E L] _]]; [left|right];
      split; simpl; rewrite ?E, ?He; try done.
    + destruct L as [->|[u' ->]]; rewrite Hl; eauto.
    + by rewrite L, Hl.
Qed.

Lemma fetch_source_process_state_witness :
  tmp (world_after ex_url "def" ex_world_abc) = tmp ex_world_abc
  ∧ cwd (world_after ex_url "def" ex_world_abc) = cwd ex_world_abc
  ∧ cachito_sources_dir (world_after ex_url "def" ex_world_abc)
    = cachito_sources_dir ex_world_abc
  ∧ (updated_process ex_world_abc (world_after ex_url "def" ex_world_abc)
     ∨ cloned_process ex_url ex_world_abc (world_after ex_url "def" ex_world_abc)).
Proof.
  apply (fetch_source_process_state ex_url "def" ex_world_abc (Ok PyNone)
           (self_after ex_url "def" ex_world_abc)).
  vm_compute. reflexivity.
Defined.

(** The first fetch of the example leaves [GIT_TERMINAL_PROMPT] set in the
    process environment, where it was not set before. *)
Lemma clone_leaves_environment_changed :
  result_of ex_url "abc" ex_world = Ok PyNone
  ∧ environ ex_world !! "GIT_TERMINAL_PROMPT" = None
  ∧ environ (world_after ex_url "abc" ex_world) !! "GIT_TERMINAL_PROMPT" = Some "0"
  ∧ environ (world_after ex_url "abc" ex_world) ≠ environ ex_world.
Proof.
  split_and!; [by vm_compute..|]. intros H.
  assert (H' : environ (world_after ex_url "abc" ex_world) !! "GIT_TERMINAL_PROMPT"
               = environ ex_world !! "GIT_TERMINAL_PROMPT") by by rewrite H.
  vm_compute in H'. discriminate.
Qed.

(** ** Looking for a seed *)

Section Paths.

Implicit Types (a b x s : string) (c : ascii).

Lemma contains_app c a b :
  Str.contains c (a +:+ b) = Str.contains c a || Str.contains c b.
Proof. induction a as [|y a IH]; simpl; [done|]. by rewrite IH, orb_assoc. Qed.




Lemma endswith_cons_nonempty suf y x :
  x ≠ EmptyString → String.length suf = 1 →
  Str.endswith suf (String y x) = Str.endswith suf x.
Proof.
  intros Hx Hsuf. cbn [Str.endswith].
  destruct (String.eqb_spec (String y x) suf) as [<-|_]; [|done].
  destruct x; [done|]. simpl in Hsuf. lia.
Qed.




Lemma join2_shape a b :
  Str.startswith "/" b = false →
  ∃ x, os_path.join2 a b = x +:+ b ∧ (x = EmptyString ∨ Str.endswith "/" x = true)
       ∧ (x = a ∨ (x = a +:+ "/" ∧ a ≠ EmptyString ∧ Str.endswith "/" a = false)).
Proof.
  intros Hb. unfold os_path.join2. rewrite Hb.
  destruct a as [|y a].
  { exists EmptyString. split_and!; [done|by left|by left]. }
  cbn [Str.truthy negb orb].
  destruct (Str.endswith "/" (String y a)) eqn:E.
  - exists (String y a). split_and!; [done|by right|by left].
  - exists (String y a +:+ "/"). split_and!.
    + by rewrite app_assoc_str.
    + right. apply endswith_spec. eauto.
    + right. by split_and!.
Qed.


End Paths.

Section Listing.

Implicit Types (w : World) (loc : Loc).













End Listing.

(** ** The paths [glob] returns can be examined *)

Section FoundPaths.

Implicit Types (w : World) (loc cur : Loc) (comps : list string) (a b x s nm : string).

Lemma split_nonempty c s : Str.split c s ≠ [].
Proof. destruct s as [|y s]; simpl; [done|]. by repeat case_match. Qed.

Lemma split_plain c s : Str.contains c s = false → Str.split c s = [s].
Proof.
  induction s as [|y s IH]; simpl; [done|].
  intros [Hy Hs]%orb_false_iff. by rewrite Hy, (IH Hs).
Qed.

Lemma split_all_plain s : Forall plain_name (Str.split "/" s).
Proof.
  induction s as [|y s IH]; simpl; [by repeat constructor|].
  destruct (Ascii.eqb y "/") eqn:Ey; [by constructor|].
  destruct (Str.split "/" s) as [|h t].
  { constructor; [|done]. unfold plain_name. simpl. by rewrite Ey. }
  inversion IH as [|?? Hh Ht]; subst. constructor; [|done].
  unfold plain_name in *. simpl. by rewrite Ey, Hh.
Qed.

Lemma split_sep c a b :
  Str.split c (a +:+ String c b) = Str.split c a ++ Str.split c b.
Proof.
  induction a as [|y a IH]; simpl; [by rewrite Ascii.eqb_refl|].
  destruct (Ascii.eqb y c); [by rewrite IH|]. rewrite IH.
  pose proof (split_nonempty c a). by destruct (Str.split c a).
Qed.

Lemma split_snoc x nm :
  plain_name nm → Str.endswith "/" x = true →
  ∃ init, Str.split "/" x = init ++ [EmptyString] ∧ init ≠ []
          ∧ Str.split "/" (x +:+ nm) = init ++ [nm].
Proof.
  intros Hnm. induction x as [|y x IH]; [done|]. intros Hx.
  destruct x as [|z x].
  - cbn in Hx. destruct (Ascii.eqb_spec y "/") as [->|]; [|done].
    exists [EmptyString]. split_and!; [done..|]. simpl. by rewrite (split_plain _ _ Hnm).
  - rewrite endswith_cons_nonempty in Hx by done.
    destruct (IH Hx) as (init & Hi & Hne & Hs). destruct init as [|h t]; [done|].
    cbn [Str.split String.append] in *. rewrite Hs.
    cbn [Str.split] in Hi. rewrite Hi.
    destruct (Ascii.eqb y "/").
    + by exists (EmptyString :: h :: t).
    + by exists (String y h :: t).
Qed.

Lemma walk_app w p cur c1 c2 loc :
  os.walk w p cur (c1 ++ c2) = Ok loc →
  ∃ l1, os.walk w p cur c1 = Ok l1 ∧ os.walk w p l1 c2 = Ok loc.
Proof.
  revert cur. induction c1 as [|c c1 IH]; intros cur; simpl; [eauto|].
  destruct (os.content_at w cur) as [[|d]|]; [apply IH|done..].
Qed.

Lemma walk_snoc w p p' cur c1 nm l1 :
  os.walk w p cur c1 = Ok l1 → os.content_at w l1 = Some CDir →
  os.walk w p' cur (c1 ++ [nm]) = Ok (os.step l1 nm).
Proof.
  revert cur. induction c1 as [|c c1 IH]; intros cur; simpl.
  - intros [= ->] Hc. by rewrite Hc.
  - destruct (os.content_at w cur) as [[|d]|]; [apply IH|done..].
Qed.

Lemma plain_not_abs nm : plain_name nm → os_path.isabs nm = false.
Proof.
  unfold plain_name, os_path.isabs, Str.startswith.
  destruct nm as [|y nm]; [done|]. cbn [Str.contains String.prefix].
  intros [Hy _]%orb_false_iff. destruct (Ascii.ascii_dec "/" y) as [<-|]; [|done].
  by rewrite Ascii.eqb_refl in Hy.
Qed.

Lemma isabs_app a b : a ≠ EmptyString → os_path.isabs (a +:+ b) = os_path.isabs a.
Proof.
  unfold os_path.isabs, Str.startswith. destruct a as [|y a]; [done|]. intros _.
  cbn [String.append String.prefix]. destruct (Ascii.ascii_dec "/" y); [|done].
  by destruct a, b.
Qed.








End FoundPaths.

(** ** Seed or clone *)

Lemma fetch_source_miss (u r : string) (w : World) (n : string) (w1 : World) :
  repo_name_of u = Ok n → os.makedirs w (package_dir_of w n) = Ok w1 →
  cache_state w1 (archive_path_of w n r) = Miss →
  fetch_source (SCM_init u r, w) = regenerate (package_dir_of w n) (memoized u r w n, w1).
Proof. intros Hn Hmk Hc. by rewrite fetch_source_fresh, Hn, Hmk, Hc. Qed.





(** ** Failures of fetch, clone and checkout *)





(** ** A reference that does not resolve *)







(** ** An archive path below a directory that is not there *)






(** The reference [feature/x] of [ex_url], asked for when the package
    directory of a repository named [foo/bar/feature] exists: the cache
    misses, and the archive is written below that directory. *)
Lemma slash_ref_archive_written :
  Str.contains "/" "feature/x" = true
  ∧ cache_state ex_world_sub "/var/cachito/foo/bar/feature/x.tar.gz" = Miss
  ∧ result_of ex_url "feature/x" ex_world_sub = Ok PyNone
  ∧ _archive_path (self_after ex_url "feature/x" ex_world_sub)
    = Some "/var/cachito/foo/bar/feature/x.tar.gz"
  ∧ valid_archive_at (world_after ex_url "feature/x" ex_world_sub)
      "/var/cachito/foo/bar/feature/x.tar.gz".
Proof. split_and!; [by vm_compute..|]. eexists. by vm_compute. Qed.

(** ** The trees of the temporary area stay well-formed *)

Section WellFormedTrees.

Implicit Types (n v : Node) (ch : list (string * Node)) (comps : list string)
  (k c : string) (w : World).

Lemma wf_node_dir ch : wf_node (Dir ch) ↔ wf_children ch.
Proof.
  unfold wf_children. induction ch as [|[k m] r IH]; simpl.
  - split; [constructor|done].
  - simpl in IH. rewrite Forall_cons. simpl. rewrite <- IH. tauto.
Qed.

Lemma alist_get_wf k ch m :
  wf_children ch → tempfile.alist_get k ch = Some m → wf_node m.
Proof.
  intros Hch. induction Hch as [|[k' m'] r [_ Hm] _ IH]; simpl; [done|].
  destruct (String.eqb k k'); [by intros [= <-]|done].
Qed.

Lemma alist_set_wf k v ch :
  good_name k → wf_node v → wf_children ch → wf_children (tempfile.alist_set k v ch).
Proof.
  intros Hk Hv Hch. induction Hch as [|[k' m'] r Hkm Hr IH]; simpl.
  - constructor; [done|constructor].
  - destruct (String.eqb k k'); constructor; done.
Qed.

Lemma alist_del_wf k ch : wf_children ch → wf_children (tempfile.alist_del k ch).
Proof.
  intros Hch. unfold tempfile.alist_del, wf_children. apply Forall_forall.
  intros x [_ Hx]%list_elem_of_filter. by eapply (proj1 (Forall_forall _ _) Hch).
Qed.

Lemma children_of_wf n : wf_node n → wf_children (tempfile.children_of n).
Proof. destruct n; simpl; try (intros _; constructor). apply wf_node_dir. Qed.

Lemma node_at_wf comps n m : wf_node n → tempfile.node_at comps n = Some m → wf_node m.
Proof.
  revert n. induction comps as [|c rest IH]; intros n Hn; simpl; [by intros [= <-]|].
  destruct n as [|ch|]; try done.
  destruct (tempfile.alist_get c ch) as [m'|] eqn:E; [|done].
  apply IH. eapply alist_get_wf; [|done]. by apply wf_node_dir.
Qed.

Lemma node_set_wf comps v n :
  Forall good_name comps → wf_node v → wf_node n → wf_node (tempfile.node_set comps v n).
Proof.
  intros Hcomps Hv. revert n. induction Hcomps as [|c rest Hc Hrest IH]; intros n Hn; [done|].
  cbn [tempfile.node_set]. apply wf_node_dir.
  pose proof (children_of_wf n Hn) as Hch.
  apply alist_set_wf; [done| |done]. apply IH.
  destruct (tempfile.alist_get c _) as [m|] eqn:E; [by eapply alist_get_wf|done].
Qed.

Lemma node_del_wf comps n : wf_node n → wf_node (tempfile.node_del comps n).
Proof.
  revert n. induction comps as [|c rest IH]; intros n Hn; [done|].
  destruct n as [|ch|]; try (by destruct rest). apply wf_node_dir in Hn.
  destruct rest as [|c' rest'].
  - simpl. apply wf_node_dir. by apply alist_del_wf.
  - cbn [tempfile.node_del].
    destruct (tempfile.alist_get c ch) as [m|] eqn:E; [|by apply wf_node_dir].
    apply wf_node_dir, alist_set_wf; [| |done].
    + clear -Hn E. induction Hn as [|[k' m'] r [Hk _] _ IH]; simpl in E; [done|].
      destruct (String.eqb_spec c k') as [->|]; [done|by apply IH].
    + apply IH. by eapply alist_get_wf.
Qed.

Lemma node_at_set comps v n :
  tempfile.node_at comps (tempfile.node_set comps v n) = Some v.
Proof.
  revert n. induction comps as [|c rest IH]; intros n; [done|].
  cbn [tempfile.node_set tempfile.node_at].
  assert (Hget : ∀ (x : Node) l, tempfile.alist_get c (tempfile.alist_set c x l) = Some x).
  { intros x l. induction l as [|[k' m'] l IHl]; simpl.
    - by rewrite String.eqb_refl.
    - destruct (String.eqb c k') eqn:E; simpl; [by rewrite String.eqb_refl|by rewrite E]. }
  by rewrite Hget.
Qed.

(** The names obtained by splitting at the slashes. *)
Lemma split_good (keep : string → Prop) `{∀ c, Decision (keep c)} s :
  (∀ c, keep c → c ≠ EmptyString) →
  Forall good_name (filter keep (Str.split "/" s)).
Proof.
  intros Hkeep. apply Forall_forall. intros c [Hc Hin]%list_elem_of_filter.
  split; [by apply Hkeep|]. by eapply (proj1 (Forall_forall _ _) (split_all_plain s)).
Qed.

Lemma rel_good w p comps : tempfile.rel w p = Some comps → Forall good_name comps.
Proof.
  unfold tempfile.rel. repeat case_match; try done. intros [= <-]. by apply split_good.
Qed.

Lemma member_comps_good name : Forall good_name (tarfile.member_comps name).
Proof. apply split_good. by intros c [? _]. Qed.

Lemma path_comps_good name : Forall good_name (git.path_comps name).
Proof. apply split_good. by intros c [? _]. Qed.

Lemma extract_all_wf root ms root' :
  wf_node root → tarfile.extract_all root ms = Ok root' → wf_node root'.
Proof.
  revert root. induction ms as [|[name body] ms IH]; intros root Hroot; simpl;
    [by intros [= <-]|].
  destruct (tarfile.escapes name); [done|]. apply IH.
  destruct body; [destruct (tempfile.node_at _ _) as [[]|]|..];
    try done; by apply node_set_wf; [apply member_comps_good|..].
Qed.

Lemma checkout_tree_wf old tree n : wf_node n → wf_node (git.checkout_tree old tree n).
Proof.
  intros Hn. unfold git.checkout_tree.
  assert (Hdel : wf_node (foldl (λ acc name, tempfile.node_del (git.path_comps name) acc)
                            n old)).
  { revert n Hn. induction old as [|x old IH]; intros n Hn; simpl; [done|].
    apply IH. by apply node_del_wf. }
  revert Hdel. generalize (foldl (λ acc name, tempfile.node_del (git.path_comps name) acc) n old).
  induction tree as [|[k d] tree IH]; intros m Hm; simpl; [done|].
  apply IH. by apply node_set_wf; [apply path_comps_good|..].
Qed.

Lemma read_wf p w n : tmp_wf w → tempfile.read p w = (Ok (Some n), w) → wf_node n.
Proof.
  unfold tmp_wf, tempfile.read. intros Hw [= H].
  destruct (tmp w) as [ch|]; [|done]. destruct (tempfile.rel w p); [|done].
  eapply node_at_wf; [|done]. by apply wf_node_dir.
Qed.

Lemma write_wf p v w r w' :
  tmp_wf w → wf_node v → tempfile.write p v w = (r, w') → tmp_wf w'.
Proof.
  unfold tempfile.write. intros Hw Hv.
  destruct (tmp w) as [ch|] eqn:Et; [|by intros [= <- <-]].
  destruct (tempfile.rel w p) as [comps|] eqn:E; [|by intros [= <- <-]].
  intros [= <- <-]. unfold tmp_wf in *. rewrite Et in Hw. simpl.
  apply children_of_wf, node_set_wf; [by eapply rel_good|done|].
  by apply wf_node_dir.
Qed.

Lemma write_read p ch' w w' :
  tempfile.write p (Dir ch') w = (Ok tt, w') →
  tempfile.read p w' = (Ok (Some (Dir ch')), w').
Proof.
  unfold tempfile.write, tempfile.read.
  destruct (tmp w) as [ch|]; [|done]. destruct (tempfile.rel w p) as [comps|] eqn:E; [|done].
  intros [= <-]. simpl.
  replace (tempfile.rel (with_tmp _ w) p) with (tempfile.rel w p) by done. rewrite E.
  do 2 f_equal. destruct comps as [|c rest]; [done|].
  cbn [tempfile.node_set tempfile.children_of].
  apply (node_at_set (c :: rest) (Dir ch') (Dir ch)).
Qed.

End WellFormedTrees.

(** ** What the archive holds *)

Section TmpInvariant.

Implicit Types (w : World) (p : string).

Lemma git_name_good : good_name ".git".
Proof. split; [done|]. apply (bool_decide_unpack _). vm_compute. exact I. Qed.

Lemma tmp_wf_empty w : tmp_wf (with_tmp (Some []) w).
Proof. constructor. Qed.

Lemma tmp_wf_clone_world w : tmp_wf (clone_world w).
Proof. constructor. Qed.

Lemma wt_step_tmp_wf evs w w' : wt_step evs w w' → tmp w' = tmp w → tmp_wf w → tmp_wf w'.
Proof. unfold tmp_wf. by intros _ ->. Qed.

Lemma extractall_wf ms p w r w' :
  tmp_wf w → tarfile.extractall ms p w = (r, w') → tmp_wf w'.
Proof.
  intros Hw. unfold tarfile.extractall. st_unfold.
  destruct (tempfile.read p w) as [[[root|]|e] w1] eqn:E;
    pose proof E as [-> _]%read_frame; try by intros [= <- <-].
  apply read_wf in E; [|done].
  destruct (tarfile.extract_all root ms) as [root'|e] eqn:Ex; [|by intros [= <- <-]].
  apply write_wf; [done|]. by eapply extract_all_wf.
Qed.

Lemma set_db_wf p db w r w' : tmp_wf w → git.set_db p db w = (r, w') → tmp_wf w'.
Proof.
  intros Hw. unfold git.set_db. st_unfold.
  destruct (tempfile.read p w) as [[[[|ch|]|]|e] w1] eqn:E;
    pose proof E as [-> _]%read_frame; try by intros [= <- <-].
  apply read_wf in E; [|done].
  apply write_wf; [done|]. apply wf_node_dir, alist_set_wf; [apply git_name_good|done|].
  by apply wf_node_dir.
Qed.

Lemma fetch_wf repo w r w' : tmp_wf w → git.fetch repo w = (r, w') → tmp_wf w'.
Proof.
  intros Hw. unfold git.fetch, git.log_net. st_unfold.
  destruct (git.db_at _ w) as [[db|e] w1] eqn:E; apply db_at_frame in E as ->;
    [|by intros [= <- <-]].
  destruct (g_origin db) as [u|]; [|by intros [= <- <-]].
  destruct (remotes _ !! u); [|by intros [= <- <-]].
  by apply set_db_wf.
Qed.

Lemma clone_from_wf u p w r w' : tmp_wf w → git.clone_from u p w = (r, w') → tmp_wf w'.
Proof.
  intros Hw. unfold git.clone_from, git.log_net. st_unfold.
  destruct (remotes _ !! u) as [revs|]; [|by intros [= <- <-]].
  destruct (tempfile.write _ _ _) as [[[]|e] w1] eqn:E;
    (apply write_wf in E; [|done|]); try (by intros [= <- <-]);
    (split; [apply git_name_good|done]).
Qed.

Lemma seed_repo_wf prev t w r w' : tmp_wf w → seed_repo prev t w = (r, w') → tmp_wf w'.
Proof.
  intros Hw. unfold seed_repo. st_unfold.
  destruct (tarfile.open_r_gz prev w) as [[ms|e] w1] eqn:E; apply open_r_gz_frame in E as ->;
    [|by intros [= <- <-]].
  destruct (tarfile.extractall ms t w) as [[[]|e] w1] eqn:E; apply extractall_wf in E;
    try done; [|by intros [= <- <-]].
  destruct (git.open_repo _ w1) as [r' w2] eqn:Eo. apply open_repo_frame in Eo as ->.
  by intros [= <- <-].
Qed.

Lemma head_reset_wf repo w r w' : tmp_wf w → git.head_reset repo w = (r, w') → tmp_wf w'.
Proof.
  intros Hw. unfold git.head_reset. st_unfold.
  destruct (git.db_at _ w) as [[db|e] w1] eqn:E; apply db_at_frame in E as ->;
    [|by intros [= <- <-]].
  destruct (g_head db) as [c|]; [|by intros [= <- <-]].
  destruct (tempfile.read _ w) as [[n|e] w1] eqn:E;
    pose proof E as [-> [? ?]]%read_frame; [|done].
  apply write_wf; [done|].
  apply wf_node_dir, alist_set_wf; [apply git_name_good|done|].
  apply children_of_wf, checkout_tree_wf.
  destruct n as [n|]; [by eapply read_wf|done].
Qed.

Lemma head_reset_dir repo w w' :
  git.head_reset repo w = (Ok tt, w') →
  ∃ ch, tempfile.read (git.working_dir repo) w' = (Ok (Some (Dir ch)), w').
Proof.
  unfold git.head_reset. st_unfold.
  destruct (git.db_at _ w) as [[db|e] w1] eqn:E; apply db_at_frame in E as ->; [|done].
  destruct (g_head db) as [c|]; [|done].
  destruct (tempfile.read _ w) as [[n|e] w1] eqn:E;
    pose proof E as [-> [? ?]]%read_frame; [|done].
  intros Hwr%write_read. eauto.
Qed.

Lemma reset_head_wf rev repo w r w' : tmp_wf w → reset_head rev repo w = (r, w') → tmp_wf w'.
Proof.
  intros Hw. unfold reset_head. st_unfold.
  destruct (git.commit repo rev w) as [[c|e] w1] eqn:E; apply commit_frame in E as ->;
    [|by intros [= <- <-]].
  destruct (git.set_head_reference repo c w) as [[[]|e] w1] eqn:E.
  - apply head_reset_wf. revert E. unfold git.set_head_reference. st_unfold.
    destruct (git.db_at _ w) as [[db|e] w2] eqn:E; apply db_at_frame in E as ->; [|done].
    by apply set_db_wf.
  - intros [= <- <-]. revert E. unfold git.set_head_reference. st_unfold.
    destruct (git.db_at _ w) as [[db|e'] w2] eqn:E; apply db_at_frame in E as ->;
      [by apply set_db_wf|by intros [= <- <-]].
Qed.

Lemma reset_head_dir rev repo w w' :
  reset_head rev repo w = (Ok tt, w') →
  ∃ ch, tempfile.read (git.working_dir repo) w' = (Ok (Some (Dir ch)), w').
Proof.
  unfold reset_head. st_unfold.
  destruct (git.commit repo rev w) as [[c|e] w1]; [|done].
  destruct (git.set_head_reference repo c w1) as [[[]|e] w2]; [|done].
  apply head_reset_dir.
Qed.

Lemma working_tree_wf pd u w repo w3 : WorkingTree pd u w repo w3 → tmp_wf w3.
Proof.
  intros [prev w2 _ Hs Hf|_ Hc].
  - eapply fetch_wf; [|done]. eapply seed_repo_wf; [|done]. apply tmp_wf_empty.
  - eapply clone_from_wf; [|done]. apply tmp_wf_clone_world.
Qed.

End TmpInvariant.

Section ArchiveMembers.

Implicit Types (n : Node) (arc k : string).

Lemma join_child arc k :
  arc_ok arc → good_name k →
  os_path.join arc [k] = arc +:+ "/" +:+ k ∧ arc_ok (arc +:+ "/" +:+ k).
Proof.
  intros [Ha He] [Hk Hp]. split.
  - simpl. unfold os_path.join2.
    change (Str.startswith "/" k) with (os_path.isabs k). rewrite (plain_not_abs _ Hp), He.
    by destruct arc.
  - split; [by destruct arc|].
    destruct (Str.endswith "/" (arc +:+ "/" +:+ k)) eqn:E; [|done].
    apply endswith_spec in E as [x E].
    assert (Hlast : ∀ (a b : string) (c d : ascii),
               a +:+ String c EmptyString = b +:+ String d EmptyString → c = d).
    { clear. induction a as [|y a IH]; intros [|z b] c d; simpl; intros [= H]; subst; auto.
      - by destruct b.
      - by destruct a.
      - eauto. }
    destruct k as [|y k]; [done|].
    assert (Hk' : ∃ k0 c, String y k = k0 +:+ String c EmptyString).
    { clear. revert y. induction k as [|z k IH]; intros y.
      - by exists EmptyString, y.
      - destruct (IH z) as (k0 & c & ->). by exists (String y k0), c. }
    destruct Hk' as (k0 & c & Hk0). rewrite Hk0 in E, Hp.
    rewrite <- !app_assoc_str in E. apply Hlast in E as ->.
    unfold plain_name in Hp. rewrite contains_app in Hp. simpl in Hp.
    by rewrite orb_true_r in Hp.
Qed.

Lemma below_child arc k x : below (arc +:+ "/" +:+ k) x ∨ x = arc +:+ "/" +:+ k → below arc x.
Proof.
  intros [[t ->]| ->]; [|by exists k].
  exists (k +:+ "/" +:+ t). by rewrite !app_assoc_str.
Qed.

(** [TarFile.add] of a tree: the entry named [arc] first, then entries
    below [arc] only. *)
Lemma add_shape : ∀ n arc, wf_node n → arc_ok arc →
  ∃ b rest, tarfile.add n arc = (arc, b) :: rest
            ∧ (∀ ch, n = Dir ch → b = MDir)
            ∧ Forall (λ m, below arc m.1) rest.
Proof.
  fix IH 1. intros [d|ch|db] arc Hn Harc.
  - exists (MFile d), []. by split_and!.
  - cbn [tarfile.add]. eexists MDir, _. split_and!; [done..|].
    revert Hn. induction ch as [|[k c] r IHr]; intros Hn; [constructor|].
    simpl in Hn. destruct Hn as (Hk & Hc & Hr).
    destruct (join_child arc k Harc Hk) as [Hj Hok].
    destruct (IH c (arc +:+ "/" +:+ k) Hc Hok) as (b & rest & Hadd & _ & Hrest).
    rewrite Hj, Hadd. apply Forall_app. split; [|by apply IHr].
    constructor; [apply (below_child arc k); by right|].
    eapply Forall_impl; [done|]. intros m Hm. apply (below_child arc k). by left.
  - exists (MGit db), []. by split_and!.
Qed.

Lemma app_arc_ok : arc_ok "app".
Proof. done. Qed.

End ArchiveMembers.

Lemma seed_repo_dir prev t w repo w' :
  seed_repo prev t w = (Ok repo, w') → git.working_dir repo = os_path.join t ["app"].
Proof.
  unfold seed_repo. st_unfold.
  destruct (tarfile.open_r_gz prev w) as [[ms|e] w1]; [|done].
  destruct (tarfile.extractall ms t w1) as [[[]|e] w2]; [|done].
  unfold git.open_repo. st_unfold. destruct (git.db_at _ w2) as [[db|e] w3]; [|done].
  by intros [= <- <-].
Qed.

Lemma clone_from_dir u p w repo w' :
  git.clone_from u p w = (Ok repo, w') → git.working_dir repo = p.
Proof.
  unfold git.clone_from, git.log_net. st_unfold.
  destruct (remotes _ !! u) as [revs|]; [|done].
  destruct (tempfile.write _ _ _) as [[[]|e] w1]; [|done].
  by intros [= <- <-].
Qed.

(** What [_create_archive] writes, whatever the name of [from_dir]: the
    tree standing at [from_dir], added under the name [app]. *)
Lemma create_archive_members from_dir self w p self' w' :
  _archive_path self = Some p → Str.truthy p = true → tmp_wf w →
  _create_archive from_dir (self, w) = (Ok tt, (self', w')) →
  ∃ src b rest, tempfile.read from_dir w = (Ok (Some src), w)
    ∧ os.open_r w' p = Ok (TarGz (tarfile.add src "app"))
    ∧ tarfile.add src "app" = ("app", b) :: rest
    ∧ Forall (λ m, below "app" m.1) rest.
Proof.
  intros Hp Ht Hw. rewrite (_create_archive_unfold _ _ _ _ Hp Ht).
  destruct (tarfile.write_gz _ _ _ _) as [r w5] eqn:E. intros [= -> <- <-].
  apply write_gz_ok in E as (loc & src & Hr & Hc & Hread & ->).
  destruct (add_shape src "app" (read_wf _ _ _ Hw Hread) app_arc_ok) as (b & rest & Hadd & _ & Hrest).
  exists src, b, rest. split_and!; [done| |done..].
  by apply archived_readable.
Qed.

Lemma finished_members p rev repo w3 w5 t :
  tmp_wf w3 → Finished p rev repo w3 (Ok tt) w5 →
  ∃ w4 ch rest,
    tempfile.read (git.working_dir repo) w4 = (Ok (Some (Dir ch)), w4)
    ∧ os.open_r (with_tmp t w5) p = Ok (TarGz (tarfile.add (Dir ch) "app"))
    ∧ tarfile.add (Dir ch) "app" = ("app", MDir) :: rest
    ∧ Forall (λ m, below "app" m.1) rest.
Proof.
  intros Hw (w4 & loc & src & Hreset & Hr & Hc & Hread & ->)%finished_ok.
  destruct (reset_head_dir _ _ _ _ Hreset) as [ch Hdir].
  assert (src = Dir ch) as -> by congruence.
  pose proof (reset_head_wf _ _ _ _ _ Hw Hreset) as Hw4.
  destruct (add_shape (Dir ch) "app" (read_wf _ _ _ Hw4 Hread) app_arc_ok)
    as (b & rest & Hadd & Hb & Hrest).
  rewrite (Hb ch eq_refl) in Hadd.
  exists w4, ch, rest. split_and!; [done| |done..].
  rewrite (open_r_ext (archived loc (tarfile.add (Dir ch) "app") w4)) by done.
  by apply archived_readable.
Qed.

(** C5. A run of [fetch_source] on a new object that returns either finds
    the archive in the cache and writes none, or leaves at the archive path
    a gzip-compressed tar archive whose members are those [TarFile.add]
    gives for the working tree under the name [app]: first the directory
    entry [app], then entries below [app/] only.  The working tree is the
    directory [repo] (after a clone) or [app] (after an update) of the
    temporary directory; neither name, nor the name of the temporary
    directory, occurs in the member names. *)
Theorem archive_rooted_at_app (u r : string) (w : World) (v : PyVal) (self' : SCM)
    (w' : World) :
  fetch_source (SCM_init u r, w) = (Ok v, (self', w')) →
  ∃ n w1, repo_name_of u = Ok n ∧ os.makedirs w (package_dir_of w n) = Ok w1 ∧
    (cache_state w1 (archive_path_of w n r) = Hit ∧ w' = w1
     ∨ cache_state w1 (archive_path_of w n r) = Miss ∧
       ∃ d w4 ch rest,
         (d = "repo" ∨ d = "app")
         ∧ tempfile.read (os_path.join (tempfile.temp_dir w1) [d]) w4
           = (Ok (Some (Dir ch)), w4)
         ∧ os.open_r w' (archive_path_of w n r) = Ok (TarGz (tarfile.add (Dir ch) "app"))
         ∧ tarfile.add (Dir ch) "app" = ("app", MDir) :: rest
         ∧ Forall (λ m, below "app" m.1) rest).
Proof.
  intros Hrun%fetch_source_run.
  inversion Hrun as [e He|n e Hn Hmk|n w1 Hn Hmk Hc|n w1 e Hn Hmk Hc
                     |n w1 r0 w5 Hn Hmk Hc Hreg]; subst.
  - exists n, w'. split_and!; [done..|]. by left.
  - exists n, w1. split_and!; [done..|]. right. split; [done|].
    destruct r0 as [[]|e]; [|done].
    inversion Hreg as [e He|prev e w2 Hf Ht Hs|prev repo w2 e w3 Hf Ht Hs Hfetch
                       |prev repo w2 w3 r' w5' Hf Ht Hs Hfetch Hfin
                       |e w2 Hno Hcl|repo w2 r' w5' Hno Hcl Hfin]; subst.
    + assert (Hw3 : tmp_wf w3).
      { eapply fetch_wf; [|done]. eapply seed_repo_wf; [|done]. apply tmp_wf_empty. }
      destruct (finished_members _ _ _ _ _ (tmp w1) Hw3 Hfin) as (w4 & ch & rest & H1 & H2 & H3 & H4).
      rewrite (seed_repo_dir _ _ _ _ _ Hs) in H1.
      exists "app", w4, ch, rest. split_and!; auto.
    + assert (Hw2 : tmp_wf w2).
      { eapply clone_from_wf; [|done]. apply tmp_wf_clone_world. }
      destruct (finished_members _ _ _ _ _ (tmp w1) Hw2 Hfin) as (w4 & ch & rest & H1 & H2 & H3 & H4).
      rewrite (clone_from_dir _ _ _ _ _ Hcl) in H1.
      exists "repo", w4, ch, rest. split_and!; auto.
Qed.

Lemma archive_rooted_at_app_witness :
  ∃ n w1, repo_name_of ex_url = Ok n
    ∧ os.makedirs ex_world (package_dir_of ex_world n) = Ok w1 ∧
    (cache_state w1 (archive_path_of ex_world n "abc") = Hit
       ∧ world_after ex_url "abc" ex_world = w1
     ∨ cache_state w1 (archive_path_of ex_world n "abc") = Miss ∧
       ∃ d w4 ch rest,
         (d = "repo" ∨ d = "app")
         ∧ tempfile.read (os_path.join (tempfile.temp_dir w1) [d]) w4
           = (Ok (Some (Dir ch)), w4)
         ∧ os.open_r (world_after ex_url "abc" ex_world) (archive_path_of ex_world n "abc")
           = Ok (TarGz (tarfile.add (Dir ch) "app"))
         ∧ tarfile.add (Dir ch) "app" = ("app", MDir) :: rest
         ∧ Forall (λ m, below "app" m.1) rest).
Proof.
  apply (archive_rooted_at_app ex_url "abc" ex_world PyNone
           (self_after ex_url "abc" ex_world) (world_after ex_url "abc" ex_world)).
  vm_compute. reflexivity.
Defined.

(** ** A file at the archive path that is no archive *)



(** The run on the example: the zero-byte file is still what stands at the
    archive path, and the remote was never asked. *)
Lemma corrupt_archive_left_in_place :
  result_of ex_url "abc" ex_world_corrupt = Err (ReadError "/var/cachito/foo/bar/abc.tar.gz")
  ∧ os.open_r (world_after ex_url "abc" ex_world_corrupt) "/var/cachito/foo/bar/abc.tar.gz"
    = Ok (Garbage "")
  ∧ net_log (world_after ex_url "abc" ex_world_corrupt) = []
  ∧ remotes ex_world_corrupt !! ex_url = Some ex_revs.
Proof. split_and!; vm_compute; reflexivity. Qed.


(** ** Runs that raise write no file *)






(** ** The cache key *)

(** The cache is keyed by the repository name and the reference, not by
    the URL: once [fetch_source] has returned for one URL, a call for any
    URL with the same repository name (another scheme, host or user) and
    the same reference is a cache hit.  It returns at once and leaves the
    whole world, network log included, as it was: the second URL is never
    contacted. *)
Theorem same_name_urls_share_cache (u1 u2 r : string) (w : World) (n : string) v self' w' :
  repo_name_of u1 = Ok n → repo_name_of u2 = Ok n →
  fetch_source (SCM_init u1 r, w) = (Ok v, (self', w')) →
  fetch_source (SCM_init u2 r, w') = (Ok PyNone, (memoized u2 r w' n, w'))
  ∧ _archive_path (memoized u2 r w' n) = _archive_path self'.
Proof.
  intros Hn1 Hn2 Hrun%fetch_source_run.
  destruct (fetched_then_hit _ _ _ _ _ _ Hrun) as (n' & Hn' & -> & Hmk & Hhit & Hself).
  assert (n' = n) as -> by congruence.
  split.
  - by rewrite fetch_source_fresh, Hn2, Hmk, Hhit.
  - by rewrite <- Hself.
Qed.

Lemma same_name_urls_share_cache_witness :
  fetch_source (SCM_init ex_url_mirror "abc", ex_world_abc)
  = (Ok PyNone, (memoized ex_url_mirror "abc" ex_world_abc "foo/bar", ex_world_abc))
  ∧ _archive_path (memoized ex_url_mirror "abc" ex_world_abc "foo/bar")
    = _archive_path (self_after ex_url "abc" ex_world).
Proof.
  apply (same_name_urls_share_cache ex_url ex_url_mirror "abc" ex_world "foo/bar" PyNone
           (self_after ex_url "abc" ex_world) ex_world_abc);
    vm_compute; reflexivity.
Defined.

(** [update_and_archive] makes no use of the URL of the object: on an
    object whose archive path is computed, the result and the world it
    leaves are the same whatever the URL is. *)
Theorem update_ignores_url (prev u' p : string) (self : SCM) (w : World) :
  _archive_path self = Some p → Str.truthy p = true →
  update_and_archive prev (set_url u' self, w)
  = ((update_and_archive prev (self, w)).1,
     (set_url u' (update_and_archive prev (self, w)).2.1,
      (update_and_archive prev (self, w)).2.2)).
Proof.
  intros Hp Ht.
  rewrite (update_and_archive_unfold prev (set_url u' self) w p Hp Ht).
  rewrite (update_and_archive_unfold prev self w p Hp Ht).
  destruct (seed_repo prev _ _) as [[repo|e] w2]; [|done].
  destruct (git.fetch repo w2) as [[[]|e] w3]; [|done].
  unfold reset_and_archive. cbn [ref set_url].
  destruct (reset_head (ref self) repo w3) as [[[]|e] w4]; [|done].
  by destruct (tarfile.write_gz _ _ _ _).
Qed.

Lemma update_ignores_url_witness :
  update_and_archive ex_seed
    (set_url ex_url_mirror (memoized ex_url "def" ex_world_abc "foo/bar"), ex_world_abc)
  = ((update_and_archive ex_seed (memoized ex_url "def" ex_world_abc "foo/bar",
                                   ex_world_abc)).1,
     (set_url ex_url_mirror
        (update_and_archive ex_seed (memoized ex_url "def" ex_world_abc "foo/bar",
                                     ex_world_abc)).2.1,
      (update_and_archive ex_seed (memoized ex_url "def" ex_world_abc "foo/bar",
                                   ex_world_abc)).2.2)).
Proof.
  apply (update_ignores_url ex_seed ex_url_mirror "/var/cachito/foo/bar/def.tar.gz"
           (memoized ex_url "def" ex_world_abc "foo/bar") ex_world_abc);
    vm_compute; reflexivity.
Defined.

(** ** What stands at the archive path *)

(** When a directory stands at the archive path, the cache test itself
    fails: [tarfile.is_tarfile] raises [IsADirectoryError], which
    [fetch_source] lets through.  Nothing is looked for, cloned or
    written. *)
Theorem directory_at_archive_path (u r : string) (w : World) (n : string) (w1 : World) :
  repo_name_of u = Ok n → os.makedirs w (package_dir_of w n) = Ok w1 →
  os.stat w1 (archive_path_of w n r) = Ok CDir →
  fetch_source (SCM_init u r, w)
  = (Err (IsADirectoryError (archive_path_of w n r)), (memoized u r w n, w1))
  ∧ is_domain_error (IsADirectoryError (archive_path_of w n r)) = false
  ∧ net_log w1 = net_log w.
Proof.
  intros Hn Hmk Hst. split_and!; [|done|].
  - rewrite fetch_source_fresh, Hn, Hmk.
    unfold cache_state, os.path_exists, os.open_r. by rewrite Hst.
  - by destruct (makedirs_grown _ _ _ Hmk) as [_ (_ & ? & _) _ _ _].
Qed.

Lemma directory_at_archive_path_witness :
  fetch_source (SCM_init ex_url "abc", ex_world_blocked)
  = (Err (IsADirectoryError (archive_path_of ex_world_blocked "foo/bar" "abc")),
     (memoized ex_url "abc" ex_world_blocked "foo/bar", ex_world_blocked))
  ∧ is_domain_error (IsADirectoryError (archive_path_of ex_world_blocked "foo/bar" "abc"))
    = false
  ∧ net_log ex_world_blocked = net_log ex_world_blocked.
Proof.
  apply (directory_at_archive_path ex_url "abc" ex_world_blocked "foo/bar" ex_world_blocked);
    vm_compute; reflexivity.
Defined.



(** ** The repository after [_reset_git_head] *)

Section GitDatabase.

Implicit Types (w : World) (p k : string) (db : GitDb).

Lemma alist_get_set {A} k (x : A) (l : list (string * A)) :
  tempfile.alist_get k (tempfile.alist_set k x l) = Some x.
Proof.
  induction l as [|[k' m'] l IH]; simpl.
  - by rewrite String.eqb_refl.
  - destruct (String.eqb k k') eqn:E; simpl; [by rewrite String.eqb_refl|by rewrite E].
Qed.

Lemma db_at_written p db ch w w' :
  tempfile.write p (Dir (tempfile.alist_set ".git" (GitDir db) ch)) w = (Ok tt, w') →
  git.db_at p w' = (Ok db, w').
Proof.
  intros H%write_read. unfold git.db_at. st_unfold. by rewrite H, alist_get_set.
Qed.

Lemma db_at_dir p db w :
  git.db_at p w = (Ok db, w) →
  ∃ ch, tempfile.read p w = (Ok (Some (Dir ch)), w)
        ∧ tempfile.alist_get ".git" ch = Some (GitDir db).
Proof.
  unfold git.db_at. st_unfold.
  destruct (tempfile.read p w) as [[[[|ch|]|]|e] w1] eqn:E;
    pose proof E as [-> _]%read_frame; try done.
  destruct (tempfile.alist_get ".git" ch) as [[| |db']|] eqn:Eg; try done.
  intros [= ->]. eauto.
Qed.

Lemma set_db_written p db w w' :
  git.set_db p db w = (Ok tt, w') → git.db_at p w' = (Ok db, w').
Proof.
  unfold git.set_db. st_unfold.
  destruct (tempfile.read p w) as [[[[|ch|]|]|e] w1] eqn:E;
    pose proof E as [-> _]%read_frame; try done.
  apply db_at_written.
Qed.

(** What a successful reset has done to the database. *)
Lemma reset_head_db rev repo w w' :
  reset_head rev repo w = (Ok tt, w') →
  ∃ db c, git.db_at (git.working_dir repo) w = (Ok db, w)
          ∧ tempfile.alist_get rev (g_revs db) = Some c
          ∧ git.db_at (git.working_dir repo) w'
            = (Ok (git.with_index (c_tree c).*1 (git.with_head (Some c) db)), w').
Proof.
  unfold reset_head. st_unfold.
  destruct (git.commit repo rev w) as [[c|e] w1] eqn:Ec; [|done].
  pose proof Ec as ->%commit_frame.
  destruct (git.set_head_reference repo c w) as [[[]|e] w2] eqn:Es; [|done].
  intros Hr.
  revert Ec. unfold git.commit. st_unfold.
  destruct (git.db_at _ w) as [[db|e] w0] eqn:Edb; [|done].
  pose proof Edb as ->%db_at_frame.
  destruct (tempfile.alist_get rev (g_revs db)) as [c'|] eqn:Erev; [|done].
  intros [= ->]. exists db, c. split_and!; [done..|].
  revert Es. unfold git.set_head_reference. st_unfold. rewrite Edb.
  intros Hdb2%set_db_written.
  revert Hr. unfold git.head_reset. st_unfold. rewrite Hdb2. cbn [g_head git.with_head].
  destruct (tempfile.read _ w2) as [[n|e] w3] eqn:E;
    pose proof E as [-> [? ?]]%read_frame; [|done].
  apply db_at_written.
Qed.

End GitDatabase.

(** [_reset_git_head] never changes the object, the files of the cache or
    the network log.  When it returns, the reference resolved, in the
    repository as it stood, to a commit; [HEAD] now points at that commit
    and the index lists the files of its tree.  Whatever goes wrong inside
    it, what it raises is the [CachitoError] that names the reference. *)
Theorem reset_git_head_outcome (repo : git.Repo) (self : SCM) (w : World) r s :
  _reset_git_head repo (self, w) = (r, s) →
  s.1 = self ∧ fs s.2 = fs w ∧ net_log s.2 = net_log w
  ∧ match r with
    | Ok _ =>
        ∃ db c, git.db_at (git.working_dir repo) w = (Ok db, w)
                ∧ tempfile.alist_get (ref self) (g_revs db) = Some c
                ∧ git.db_at (git.working_dir repo) s.2
                  = (Ok (git.with_index (c_tree c).*1 (git.with_head (Some c) db)), s.2)
    | Err e => e = CachitoError (checkout_failed (ref self))
    end.
Proof.
  rewrite _reset_git_head_unfold.
  destruct (reset_head (ref self) repo w) as [[[]|e] w'] eqn:E; intros [= <- <-];
    pose proof (reset_head_frame _ _ _ _ _ E) as Hstep; cbn [fst snd];
    (split_and!; [done|by rewrite (wt_step_fs Hstep)
                 |by rewrite (wt_step_net_log Hstep), app_nil_r|]); [|done].
  by apply reset_head_db.
Qed.

Lemma reset_git_head_outcome_witness :
  ex_reset.2.1 = memoized ex_url "abc" ex_world "foo/bar"
  ∧ fs ex_reset.2.2 = fs (ex_cloned (ex_with_dirs ex_world))
  ∧ net_log ex_reset.2.2 = net_log (ex_cloned (ex_with_dirs ex_world))
  ∧ ∃ db c,
      git.db_at (git.working_dir ex_repo_clone) (ex_cloned (ex_with_dirs ex_world))
      = (Ok db, ex_cloned (ex_with_dirs ex_world))
      ∧ tempfile.alist_get "abc" (g_revs db) = Some c
      ∧ git.db_at (git.working_dir ex_repo_clone) ex_reset.2.2
        = (Ok (git.with_index (c_tree c).*1 (git.with_head (Some c) db)), ex_reset.2.2).
Proof.
  apply (reset_git_head_outcome ex_repo_clone (memoized ex_url "abc" ex_world "foo/bar")
           (ex_cloned (ex_with_dirs ex_world)) (Ok tt) ex_reset.2).
  vm_compute. reflexivity.
Defined.

(** ** The archive carries the history *)

Lemma add_git_member (ch : list (string * Node)) (arc k : string) (db : GitDb) :
  tempfile.alist_get k ch = Some (GitDir db) →
  (os_path.join arc [k], MGit db) ∈ tarfile.add (Dir ch) arc.
Proof.
  intros H. cbn [tarfile.add]. apply list_elem_of_further.
  induction ch as [|[k' c] r IH]; simpl in H; [done|].
  apply elem_of_app. destruct (String.eqb_spec k k') as [<-|_].
  - injection H as ->. left. simpl. apply list_elem_of_here.
  - right. by apply IH.
Qed.

(** After a cache miss, the archive a run of [fetch_source] that returns
    has written holds, as [app/.git], the database of the repository: in
    it the requested reference resolves to a commit, [HEAD] points at that
    commit and the index lists the files of its tree.  This is what a
    later request takes the history from. *)
Theorem archive_holds_history (u r : string) (w : World) (n : string) (w1 : World)
    v self' w' :
  repo_name_of u = Ok n → os.makedirs w (package_dir_of w n) = Ok w1 →
  cache_state w1 (archive_path_of w n r) = Miss →
  fetch_source (SCM_init u r, w) = (Ok v, (self', w')) →
  ∃ ms db c,
    os.open_r w' (archive_path_of w n r) = Ok (TarGz ms)
    ∧ ("app/.git", MGit db) ∈ ms
    ∧ tempfile.alist_get r (g_revs db) = Some c
    ∧ g_head db = Some c
    ∧ g_index db = (c_tree c).*1.
Proof.
  intros Hn Hmk Hc. rewrite (fetch_source_miss _ _ _ _ _ Hn Hmk Hc).
  intros (r0 & w5 & Hreg & Hres & [= -> ->])%(regenerate_run _ _ _ (archive_path_of w n r));
    [|done|apply archive_path_of_truthy|done].
  destruct r0 as [[]|e]; [|done]. cbn [ref url memoized] in Hreg.
  destruct (regenerated_start _ _ _ _ _ _ _ Hreg eq_refl) as (repo & w3 & _ & _ & Hfin).
  destruct (finished_ok _ _ _ _ _ Hfin) as (w4 & loc & src & Hreset & Hr & Hcd & Hread & ->).
  destruct (reset_head_db _ _ _ _ Hreset) as (db & c & Hdb & Hrev & Hdb').
  apply db_at_dir in Hdb' as (ch & Hread' & Hgit).
  assert (src = Dir ch) as -> by congruence.
  eexists _, _, c. split_and!.
  - rewrite (open_r_ext (archived loc (tarfile.add (Dir ch) "app") w4)) by done.
    by apply archived_readable.
  - apply (add_git_member ch "app" ".git"). exact Hgit.
  - done.
  - done.
  - done.
Qed.

Lemma archive_holds_history_witness :
  ∃ ms db c,
    os.open_r (world_after ex_url "abc" ex_world) (archive_path_of ex_world "foo/bar" "abc")
    = Ok (TarGz ms)
    ∧ ("app/.git", MGit db) ∈ ms
    ∧ tempfile.alist_get "abc" (g_revs db) = Some c
    ∧ g_head db = Some c
    ∧ g_index db = (c_tree c).*1.
Proof.
  apply (archive_holds_history ex_url "abc" ex_world "foo/bar" (ex_with_dirs ex_world)
           PyNone (self_after ex_url "abc" ex_world) (world_after ex_url "abc" ex_world));
    vm_compute; reflexivity.
Defined.

(** ** An archive unpacks to the tree it was made from *)

Section RoundTrip.

Implicit Types (n v m : Node) (ch : list (string * Node)) (cs : list string)
  (k arc : string).

Lemma alist_get_app {A} k (l1 l2 : list (string * A)) :
  tempfile.alist_get k (l1 ++ l2) =
  match tempfile.alist_get k l1 with
  | Some x => Some x
  | None => tempfile.alist_get k l2
  end.
Proof.
  induction l1 as [|[k' x] l1 IH]; simpl; [done|]. by destruct (String.eqb k k').
Qed.

Lemma alist_set_fresh {A} k (x : A) (l : list (string * A)) :
  tempfile.alist_get k l = None → tempfile.alist_set k x l = l ++ [(k, x)].
Proof.
  induction l as [|[k' y] l IH]; simpl; [done|].
  destruct (String.eqb k k'); [done|]. intros H. by rewrite IH.
Qed.

Lemma alist_set_set {A} k (x y : A) (l : list (string * A)) :
  tempfile.alist_set k y (tempfile.alist_set k x l) = tempfile.alist_set k y l.
Proof.
  induction l as [|[k' z] l IH]; simpl.
  - by rewrite String.eqb_refl.
  - destruct (String.eqb k k') eqn:E; simpl; [by rewrite String.eqb_refl|].
    by rewrite E, IH.
Qed.

Lemma alist_get_elem {A} k k' (x : A) (l : list (string * A)) :
  tempfile.alist_get k l = None → (k', x) ∈ l → k' ≠ k.
Proof.
  induction l as [|[k0 y] l IH]; simpl; [by intros _ ?%elem_of_nil|].
  destruct (String.eqb_spec k k0) as [->|Hne]; [done|].
  intros H [[= -> ->]|Hin]%elem_of_cons; [done|by apply IH].
Qed.

(** Writing below what was just written. *)
Lemma node_set_below cs rest v m root :
  tempfile.node_set (cs ++ rest) v (tempfile.node_set cs m root)
  = tempfile.node_set cs (tempfile.node_set rest v m) root.
Proof.
  revert root. induction cs as [|c cs IH]; intros root; [done|].
  cbn [app tempfile.node_set tempfile.children_of].
  by rewrite alist_get_set, IH, alist_set_set.
Qed.

Lemma node_at_below cs rest m root :
  tempfile.node_at (cs ++ rest) (tempfile.node_set cs m root) = tempfile.node_at rest m.
Proof.
  revert root. induction cs as [|c cs IH]; intros root; [done|].
  cbn [app tempfile.node_set tempfile.node_at]. by rewrite alist_get_set, IH.
Qed.

Lemma extract_all_app root l1 l2 :
  tarfile.extract_all root (l1 ++ l2) =
  match tarfile.extract_all root l1 with
  | Ok root' => tarfile.extract_all root' l2
  | Err e => Err e
  end.
Proof.
  revert root. induction l1 as [|m l1 IH]; intros root; simpl; [done|].
  by destruct (tarfile.extract root m).
Qed.

Lemma entry_ok_spec k :
  entry_ok k = true → good_name k ∧ k ≠ "." ∧ k ≠ "..".
Proof.
  unfold entry_ok, good_name, plain_name.
  intros [[[H1 H2]%andb_prop H3]%andb_prop H4]%andb_prop.
  apply negb_true_iff in H1, H2, H3, H4.
  apply String.eqb_neq in H1, H3, H4. done.
Qed.

(** The member name of an entry of a directory. *)
Lemma child_member arc k cs :
  arc_ok arc → tarfile.escapes arc = false → tarfile.member_comps arc = cs →
  entry_ok k = true →
  os_path.join arc [k] = arc +:+ "/" +:+ k
  ∧ arc_ok (arc +:+ "/" +:+ k)
  ∧ tarfile.escapes (arc +:+ "/" +:+ k) = false
  ∧ tarfile.member_comps (arc +:+ "/" +:+ k) = cs ++ [k].
Proof.
  intros Harc Hesc Hcs (Hk & Hdot & Hdd)%entry_ok_spec.
  destruct (join_child arc k Harc Hk) as [Hj Hok]. split_and!; [done..| |].
  - unfold tarfile.escapes in *. apply orb_false_iff in Hesc as [Habs Hin].
    apply orb_false_iff. split.
    + rewrite isabs_app; [done|]. by destruct Harc.
    + apply bool_decide_eq_false. apply bool_decide_eq_false in Hin.
      change (arc +:+ "/" +:+ k) with (arc +:+ String "/" k).
      rewrite split_sep, (split_plain "/" k) by apply Hk.
      intros [?|[<-|?%elem_of_nil]%elem_of_cons]%elem_of_app; done.
  - unfold tarfile.member_comps in *.
    change (arc +:+ "/" +:+ k) with (arc +:+ String "/" k).
    rewrite split_sep, (split_plain "/" k) by apply Hk.
    rewrite filter_app, Hcs. f_equal.
    rewrite filter_cons_True; [done|]. split; [apply Hk|done].
Qed.

(** Extracting what [TarFile.add] lists for a tree, at a place where
    nothing stands, puts the tree there. *)
Lemma extract_add : ∀ n arc cs root,
  unpackable n = true → arc_ok arc → tarfile.escapes arc = false →
  tarfile.member_comps arc = cs → tempfile.node_at cs root = None →
  tarfile.extract_all root (tarfile.add n arc) = Ok (tempfile.node_set cs n root).
Proof.
  fix IH 1. intros [d|ch|db] arc cs root Hn Harc Hesc Hcs Hat.
  - simpl. by rewrite Hesc, Hcs.
  - cbn [tarfile.add tarfile.extract_all tarfile.extract]. rewrite Hesc, Hcs, Hat.
    cbn [unpackable] in Hn.
    enough (Hloop : ∀ done,
               (∀ k c, (k, c) ∈ ch → tempfile.alist_get k done = None) →
               tarfile.extract_all (tempfile.node_set cs (Dir done) root)
                 ((fix add_children (l : list (string * Node)) : list Member :=
                     match l with
                     | [] => []
                     | (name, c) :: r =>
                         tarfile.add c (os_path.join arc [name]) ++ add_children r
                     end) ch)
               = Ok (tempfile.node_set cs (Dir (done ++ ch)) root)).
    { apply (Hloop []). done. }
    revert Hn. induction ch as [|[k c] r IHr]; intros Hn done Hdone.
    + by rewrite app_nil_r.
    + apply andb_prop in Hn as [[[Hk Hfresh]%andb_prop Hc]%andb_prop Hr].
      destruct (tempfile.alist_get k r) eqn:Hkr; [done|].
      destruct (child_member arc k cs Harc Hesc Hcs Hk) as (Hj & Hok & Hesc' & Hcs').
      assert (Hkd : tempfile.alist_get k done = None).
      { apply (Hdone k c). apply list_elem_of_here. }
      rewrite extract_all_app, Hj.
      rewrite (IH c (arc +:+ "/" +:+ k) (cs ++ [k]) _ Hc Hok Hesc' Hcs').
      * rewrite node_set_below. cbn [tempfile.node_set tempfile.children_of].
        rewrite (alist_set_fresh k c done Hkd).
        rewrite (IHr Hr (done ++ [(k, c)])).
        -- by rewrite <- app_assoc.
        -- intros k' c' Hin. rewrite alist_get_app.
           rewrite (Hdone k' c') by by apply list_elem_of_further.
           simpl. destruct (String.eqb_spec k' k) as [->|]; [|done].
           by destruct (alist_get_elem k k c' r Hkr Hin).
      * rewrite node_at_below. simpl. by rewrite Hkd.
  - simpl. by rewrite Hesc, Hcs.
Qed.

Lemma rel_temp_dir (w : World) : tempfile.rel w (tempfile.temp_dir w) = Some [].
Proof.
  unfold tempfile.rel, Str.startswith.
  assert (Hpre : ∀ s, String.prefix s s = true).
  { induction s as [|a s IHs]; simpl; [done|]. by destruct (Ascii.ascii_dec a a). }
  assert (Hdrop : ∀ s, Str.drop (String.length s) s = EmptyString).
  { induction s as [|a s IHs]; simpl; done. }
  by rewrite Hpre, Hdrop.
Qed.

End RoundTrip.

(** What [_create_archive] writes is what [update_and_archive] reads
    back.  When the tree at [from_dir] has entries with ordinary names (not
    empty, no slash, neither [.] nor [..], no name twice in a directory),
    opening the archive written and extracting it into the new, empty
    temporary directory, as [update_and_archive] does with its seed,
    leaves in that directory the one entry [app], holding that tree. *)
Theorem archive_unpacks_to_source (from_dir : string) (self : SCM) (w : World)
    (p : string) (self' : SCM) (w' : World) (src : Node) :
  _archive_path self = Some p → Str.truthy p = true →
  tempfile.read from_dir w = (Ok (Some src), w) → unpackable src = true →
  _create_archive from_dir (self, w) = (Ok tt, (self', w')) →
  tarfile.open_r_gz p (with_tmp (Some []) w')
  = (Ok (tarfile.add src "app"), with_tmp (Some []) w')
  ∧ tarfile.extractall (tarfile.add src "app") (tempfile.temp_dir w')
      (with_tmp (Some []) w')
    = (Ok tt, with_tmp (Some [("app", src)]) w').
Proof.
  intros Hp Ht Hread Hsrc. rewrite (_create_archive_unfold _ _ _ _ Hp Ht).
  destruct (tarfile.write_gz _ _ _ _) as [r w5] eqn:E. intros [= -> <- <-].
  apply write_gz_ok in E as (loc & src' & Hr & Hc & Hread' & ->).
  assert (src' = src) as -> by congruence.
  split.
  - unfold tarfile.open_r_gz.
    rewrite (open_r_ext (archived loc (tarfile.add src "app") w)) by done.
    by rewrite (archived_readable _ _ _ _ Hr Hc).
  - unfold tarfile.extractall, tempfile.read, tempfile.write. st_unfold.
    cbn [tmp with_tmp].
    change (tempfile.rel (with_tmp (Some []) ?x) ?t) with (tempfile.rel x t).
    rewrite rel_temp_dir. cbn [tempfile.node_at].
    assert (Hesc : tarfile.escapes "app" = false) by (vm_compute; reflexivity).
    assert (Hcs : tarfile.member_comps "app" = ["app"]) by (vm_compute; reflexivity).
    rewrite (extract_add src "app" ["app"] (Dir []) Hsrc app_arc_ok Hesc Hcs eq_refl).
    cbn [tmp with_tmp].
    change (tempfile.rel (with_tmp (Some []) ?x) ?t) with (tempfile.rel x t).
    by rewrite rel_temp_dir.
Qed.

Lemma archive_unpacks_to_source_witness :
  tarfile.open_r_gz "/var/cachito/foo/bar/abc.tar.gz"
    (with_tmp (Some []) (_create_archive (git.working_dir ex_repo_clone) ex_reset.2).2.2)
  = (Ok (tarfile.add ex_tree "app"),
     with_tmp (Some []) (_create_archive (git.working_dir ex_repo_clone) ex_reset.2).2.2)
  ∧ tarfile.extractall (tarfile.add ex_tree "app")
      (tempfile.temp_dir (_create_archive (git.working_dir ex_repo_clone) ex_reset.2).2.2)
      (with_tmp (Some []) (_create_archive (git.working_dir ex_repo_clone) ex_reset.2).2.2)
    = (Ok tt,
       with_tmp (Some [("app", ex_tree)])
         (_create_archive (git.working_dir ex_repo_clone) ex_reset.2).2.2).
Proof.
  apply (archive_unpacks_to_source (git.working_dir ex_repo_clone) ex_reset.2.1
           ex_reset.2.2 "/var/cachito/foo/bar/abc.tar.gz"
           (_create_archive (git.working_dir ex_repo_clone) ex_reset.2).2.1
           (_create_archive (git.working_dir ex_repo_clone) ex_reset.2).2.2 ex_tree);
    vm_compute; reflexivity.
Defined.

(** ** The archive of one request is the seed of the next *)

Section DirectoryOfChild.

Implicit Types (w : World) (x y nm post : string) (loc : Loc).






Lemma walk_path w p p' cur comps loc :
  os.walk w p cur comps = Ok loc → os.walk w p' cur comps = Ok loc.
Proof.
  revert cur. induction comps as [|c rest IH]; intros cur; simpl; [done|].
  destruct (os.content_at w cur) as [[|d]|]; [|done..]. apply IH.
Qed.






End DirectoryOfChild.



(** ** The package directory *)

Section PackageDirectory.

Implicit Types (w : World) (a b x : string) (loc : Loc).

Lemma all_dirs_walk w p cur comps :
  all_dirs w cur comps →
  ∃ loc, os.walk w p cur comps = Ok loc ∧ os.content_at w loc = Some CDir.
Proof.
  revert cur. induction comps as [|c rest IH]; intros cur; simpl; [by eauto|].
  intros [-> H]. by apply IH.
Qed.

Lemma walk_steps w p cur comps loc :
  os.walk w p cur comps = Ok loc → loc = foldl os.step cur comps.
Proof.
  revert cur. induction comps as [|c rest IH]; intros cur; simpl; [by intros [= <-]|].
  destruct (os.content_at w cur) as [[|d]|]; [|done..]. apply IH.
Qed.

Lemma steps_down cur comps :
  ".." ∉ comps →
  foldl os.step cur comps = cur ++ filter (λ c, c ≠ "" ∧ c ≠ ".") comps.
Proof.
  revert cur. induction comps as [|c rest IH]; intros cur Hdd; simpl.
  - by rewrite app_nil_r.
  - apply not_elem_of_cons in Hdd as [Hc Hrest]. rewrite (IH _ Hrest).
    unfold os.step.
    destruct (String.eqb_spec c "") as [->|He]; [by rewrite filter_cons_False by (by intros [? ?])|].
    destruct (String.eqb_spec c ".") as [->|Hd]; [by rewrite filter_cons_False by (by intros [? ?])|].
    simpl. destruct (String.eqb_spec c "..") as [->|_]; [done|].
    rewrite filter_cons_True by done. by rewrite <- app_assoc.
Qed.

(** Resolving an entry is resolving its directory, then one step. *)
Lemma resolve_entry w x b loc :
  x = EmptyString ∨ Str.endswith "/" x = true → plain_name b →
  os.resolve w (x +:+ b) = Ok loc →
  ∃ l1, os.resolve w x = Ok l1 ∧ os.content_at w l1 = Some CDir ∧ loc = os.step l1 b.
Proof.
  intros [->|Hx] Hb.
  - simpl. unfold os.resolve, os.start_of. rewrite (plain_not_abs _ Hb).
    rewrite (split_plain "/" b Hb). simpl.
    destruct (os.content_at w _) as [[|d]|] eqn:Ec; [|done..].
    intros [= <-]. eauto.
  - assert (Hne : x ≠ EmptyString) by (by intros ->).
    destruct (split_snoc x b Hb Hx) as (init & Hsx & Hinit & Hsn).
    unfold os.resolve. rewrite Hsn, Hsx.
    assert (Hstart : os.start_of w (x +:+ b) = os.start_of w x).
    { unfold os.start_of. by rewrite isabs_app. }
    rewrite Hstart. intros (l1 & Hw1 & Hw2)%walk_app.
    simpl in Hw2. destruct (os.content_at w l1) as [[|d]|] eqn:Ec; [|done..].
    injection Hw2 as <-. exists l1. split_and!; [|done..].
    by rewrite (walk_snoc w _ x _ init EmptyString l1 Hw1 Ec).
Qed.

Lemma resolve_join2 w a b loc :
  plain_name b → os.resolve w (os_path.join2 a b) = Ok loc →
  ∃ l1, os.resolve w a = Ok l1 ∧ os.content_at w l1 = Some CDir ∧ loc = os.step l1 b.
Proof.
  intros Hb.
  destruct (join2_shape a b (plain_not_abs _ Hb)) as (x & -> & Hx & Hxa).
  intros (l1 & Hr & Hc & ->)%resolve_entry; [|done..].
  destruct Hxa as [->|(-> & Ha & He)]; [by eauto|].
  exists l1. split_and!; [|done..].
  revert Hr. unfold os.resolve.
  change (a +:+ "/") with (a +:+ String "/" EmptyString). rewrite split_sep.
  assert (Hstart : os.start_of w (a +:+ String "/" EmptyString) = os.start_of w a).
  { unfold os.start_of. by rewrite isabs_app. }
  rewrite Hstart. intros (l' & Hw1 & Hw2)%walk_app.
  simpl in Hw2. destruct (os.content_at w l') as [[|d]|]; [|done..].
  injection Hw2 as <-. by eapply walk_path.
Qed.

Lemma resolve_join w a comps loc :
  Forall plain_name comps → os.resolve w (os_path.join a comps) = Ok loc →
  ∃ l1, os.resolve w a = Ok l1 ∧ loc = foldl os.step l1 comps.
Proof.
  revert loc. induction comps as [|b comps IH] using rev_ind; intros loc Hall.
  - simpl. eauto.
  - apply Forall_app in Hall as [Hcomps [Hb _]%Forall_cons].
    unfold os_path.join. rewrite foldl_app. cbn [foldl].
    intros (l2 & Hr & _ & ->)%resolve_join2; [|done].
    destruct (IH l2 Hcomps Hr) as (l1 & Hr1 & ->).
    exists l1. split; [done|]. by rewrite foldl_app.
Qed.

Lemma makedirs_stands w w1 p :
  os.makedirs w p = Ok w1 → ∃ loc, os.resolve w1 p = Ok loc ∧ os.stat w1 p = Ok CDir.
Proof.
  intros H. pose proof (makedirs_grown _ _ _ H) as [(_ & Hcwd & _) _ _ _ _].
  unfold os.makedirs in H. apply mkdirs_all_dirs in H.
  destruct (all_dirs_walk w1 p _ _ H) as (loc & Hw & Hc).
  assert (Hr : os.resolve w1 p = Ok loc).
  { unfold os.resolve, os.start_of in *. by rewrite Hcwd. }
  exists loc. split; [done|]. unfold os.stat. by rewrite Hr, Hc.
Qed.

End PackageDirectory.

(** [package_dir] on a new object. *)
Lemma package_dir_fresh (u r : string) (w : World) :
  package_dir (SCM_init u r, w) =
  match repo_name_of u with
  | Err e => (Err e, (set_archives_dir (Some (archives_dir_of w)) (SCM_init u r), w))
  | Ok n =>
      match os.makedirs w (package_dir_of w n) with
      | Ok w1 => (Ok (package_dir_of w n), (half_memoized u r w n, w1))
      | Err e => (Err e, (half_memoized u r w n, w))
      end
  end.
Proof.
  cbv [package_dir archives_dir repo_name memo bind get_self
       get_world set_self ret of_res lift os_makedirs SCM_init _archive_path _package_dir
       _archives_dir _repo_name url ref fst snd set_archives_dir set_repo_name
       set_package_dir repo_name_of].
  destruct (urllib_parse.urlparse u) as [parsed|e]; [|done].
  fold (archives_dir_of w).
  change (if Str.endswith ".git" (Str.strip "/" (urllib_parse.path parsed))
          then _ else _) with (repo_name_of_path (urllib_parse.path parsed)).
  set (n := repo_name_of_path _).
  fold (package_dir_of w n).
  destruct (os.makedirs w (package_dir_of w n)); done.
Qed.

(** When [package_dir] returns on a new object, a directory stands at the
    path returned, and the call has changed the world by adding
    directories only.  The archives directory resolves, and when no
    component of the repository name is [..], the package directory is
    the directory reached from it by the components of the name that are
    neither empty nor [.]: it lies below the archives directory.  A
    further call returns the same path and changes nothing. *)
Theorem package_dir_outcome (u r : string) (w : World) pd self' w1 :
  package_dir (SCM_init u r, w) = (Ok pd, (self', w1)) →
  ∃ n A, repo_name_of u = Ok n
    ∧ grown w w1
    ∧ os.stat w1 pd = Ok CDir
    ∧ os.resolve w1 (archives_dir_of w) = Ok A
    ∧ (".." ∉ Str.split "/" n →
       os.resolve w1 pd = Ok (A ++ filter (λ c, c ≠ "" ∧ c ≠ ".") (Str.split "/" n)))
    ∧ package_dir (self', w1) = (Ok pd, (self', w1)).
Proof.
  rewrite package_dir_fresh.
  destruct (repo_name_of u) as [n|e]; [|done].
  destruct (os.makedirs w (package_dir_of w n)) as [w0|e] eqn:Hmk; [|done].
  intros [= <- <- <-].
  destruct (makedirs_stands _ _ _ Hmk) as (loc & Hr & Hst).
  destruct (resolve_join w0 (archives_dir_of w) (Str.split "/" n) loc
              (split_all_plain n) Hr) as (A & HA & ->).
  exists n, A. split_and!; [done|by eapply makedirs_grown|done|done| |].
  - intros Hdd. fold (package_dir_of w n) in Hr. by rewrite Hr, steps_down.
  - by apply package_dir_memo.
Qed.

Lemma package_dir_outcome_witness :
  ∃ n A, repo_name_of ex_url = Ok n
    ∧ grown ex_world (ex_with_dirs ex_world)
    ∧ os.stat (ex_with_dirs ex_world) "/var/cachito/foo/bar" = Ok CDir
    ∧ os.resolve (ex_with_dirs ex_world) (archives_dir_of ex_world) = Ok A
    ∧ (".." ∉ Str.split "/" n →
       os.resolve (ex_with_dirs ex_world) "/var/cachito/foo/bar"
       = Ok (A ++ filter (λ c, c ≠ "" ∧ c ≠ ".") (Str.split "/" n)))
    ∧ package_dir (half_memoized ex_url "abc" ex_world "foo/bar", ex_with_dirs ex_world)
      = (Ok "/var/cachito/foo/bar",
         (half_memoized ex_url "abc" ex_world "foo/bar", ex_with_dirs ex_world)).
Proof.
  apply (package_dir_outcome ex_url "abc" ex_world "/var/cachito/foo/bar"
           (half_memoized ex_url "abc" ex_world "foo/bar") (ex_with_dirs ex_world)).
  vm_compute. reflexivity.
Defined.



(** ** What a run changes in the cache *)

Section Entries.

Implicit Types (w : World) (l cur loc : Loc).





End Entries.



(** ** The domain errors *)

Section DomainErrors.

Implicit Types (w : World) (p : string) (e : Exn).

Lemma walk_raw w p cur comps e : os.walk w p cur comps = Err e → is_domain_error e = false.
Proof.
  revert cur. induction comps as [|c rest IH]; intros cur; simpl;
    repeat case_match; try done; try (by intros [= <-]); apply IH.
Qed.

Lemma repo_name_of_raw u e : repo_name_of u = Err e → is_domain_error e = false.
Proof.
  unfold repo_name_of. destruct (urllib_parse.urlparse u) eqn:E; [done|]. intros [= <-].
  revert E. unfold urllib_parse.urlparse. repeat case_match; by intros [= <-].
Qed.

Lemma mkdirs_raw w p cur comps e :
  os.mkdirs w p cur comps = Err e → is_domain_error e = false.
Proof.
  revert w cur. induction comps as [|c rest IH]; intros w cur; simpl;
    repeat case_match; try done; try (by intros [= <-]); apply IH.
Qed.

Lemma open_r_raw w p e : os.open_r w p = Err e → is_domain_error e = false.
Proof.
  unfold os.open_r, os.stat, os.resolve. destruct (os.walk _ _ _ _) as [loc|e'] eqn:E.
  - destruct (os.content_at w loc) as [[|d]|]; try done; by intros [= <-].
  - intros [= <-]. by eapply walk_raw.
Qed.

Lemma getctime_raw w p e : os.getctime w p = Err e → is_domain_error e = false.
Proof.
  unfold os.getctime, os.resolve. destruct (os.walk _ _ _ _) eqn:E.
  - repeat case_match; try done; by intros [= <-].
  - intros [= <-]. by eapply walk_raw.
Qed.

Lemma max_from_raw l best kb w e w' :
  max_from os_path_getctime best kb l w = (Err e, w') → is_domain_error e = false.
Proof.
  revert best kb. induction l as [|x l IH]; intros best kb; simpl; st_unfold; [done|].
  unfold os_path_getctime at 1. destruct (os.getctime w x) eqn:E.
  - destruct (_ <? _)%Z; apply IH.
  - intros [= <- _]. by eapply getctime_raw.
Qed.

Lemma find_previous_raw pd w e w' :
  find_previous pd w = (Err e, w') → is_domain_error e = false.
Proof.
  unfold find_previous, max_by_key. st_unfold.
  destruct (glob.glob w _) as [|x l]; [done|].
  unfold os_path_getctime at 1. destruct (os.getctime w x) eqn:E.
  - destruct (max_from _ _ _ _ _) as [[m|e'] w1] eqn:E'; [done|].
    intros [= <- _]. by eapply max_from_raw.
  - intros [= <- _]. by eapply getctime_raw.
Qed.

Lemma extract_all_raw root ms e :
  tarfile.extract_all root ms = Err e → is_domain_error e = false.
Proof.
  revert root. induction ms as [|[name body] ms IH]; intros root; simpl; [done|].
  destruct (tarfile.escapes name); [by intros [= <-]|]. apply IH.
Qed.

Lemma tempfile_write_raw p v w e w' :
  tempfile.write p v w = (Err e, w') → is_domain_error e = false.
Proof. unfold tempfile.write. repeat case_match; try done; by intros [= <- _]. Qed.

Lemma db_at_raw p w e w' : git.db_at p w = (Err e, w') → is_domain_error e = false.
Proof.
  unfold git.db_at. st_unfold. unfold tempfile.read.
  repeat case_match; try done; by intros [= <- _].
Qed.

Lemma seed_repo_raw prev t w e w' :
  seed_repo prev t w = (Err e, w') → is_domain_error e = false.
Proof.
  unfold seed_repo, tarfile.open_r_gz, tarfile.extractall, git.open_repo. st_unfold.
  destruct (os.open_r w prev) as [[ms|b]|e'] eqn:E1;
    [|by intros [= <- _]|intros [= <- _]; by eapply open_r_raw].
  unfold tempfile.read at 1.
  destruct (match tmp w with Some _ => _ | None => _ end) as [root|]; [|by intros [= <- _]].
  destruct (tarfile.extract_all root ms) as [root'|e'] eqn:E2;
    [|intros [= <- _]; by eapply extract_all_raw].
  destruct (tempfile.write t root' w) as [[[]|e'] w1] eqn:E3;
    [|intros [= <- _]; by eapply tempfile_write_raw].
  destruct (git.db_at _ w1) as [[db|e'] w2] eqn:E4; [done|].
  intros [= <- _]. by eapply db_at_raw.
Qed.

Lemma write_gz_raw p from arc w e w' :
  tarfile.write_gz p from arc w = (Err e, w') → is_domain_error e = false.
Proof.
  unfold tarfile.write_gz, os.open_w, os.resolve. st_unfold.
  destruct (os.walk _ _ _ _) as [loc|e'] eqn:E;
    [|intros [= <- _]; by eapply walk_raw].
  destruct (read_total from w) as [n Hn].
  destruct (os.content_at w loc) as [[|d]|]; [by intros [= <- _]|..];
    rewrite read_put, Hn; simpl; destruct n; try done; by intros [= <- _].
Qed.

Lemma regenerated_domain pd p u rev w e w5 :
  Regenerated pd p u rev w (Err e) w5 → is_domain_error e = true →
  e = CachitoError (checkout_failed rev) ∨ e = CachitoError clone_failed
  ∨ e = CachitoError fetch_failed.
Proof.
  assert (Hfin : ∀ repo w3, Finished p rev repo w3 (Err e) w5 → is_domain_error e = true →
            e = CachitoError (checkout_failed rev)).
  { intros repo w3 Hf Hd. inversion Hf as [e' w4 H1|w4 r' w5' H1 H2]; subst; [done|].
    apply write_gz_raw in H2. congruence. }
  inversion 1 as [e' H1|prev e' w2 Hf Ht H1|prev repo w2 e' w3 Hf Ht H1 H2
                  |prev repo w2 w3 r' w5' Hf Ht H1 H2 H3
                  |e' w2 Hno H1|repo w2 r' w5' Hno H1 H2]; subst; intros Hd.
  - apply find_previous_raw in H1. congruence.
  - apply seed_repo_raw in H1. congruence.
  - auto.
  - left. by eapply Hfin.
  - auto.
  - left. by eapply Hfin.
Qed.

End DomainErrors.

(** The [CachitoError]s of [fetch_source] are three: the one of a failed
    checkout, which names the reference, the one of a failed clone and
    the one of a failed fetch.  Every other exception that leaves
    [fetch_source] is the exception of a library, passed on as it is. *)
Theorem fetch_source_domain_errors (u r : string) (w : World) e s w' :
  fetch_source (SCM_init u r, w) = (Err e, (s, w')) →
  is_domain_error e = true →
  e = CachitoError (checkout_failed r) ∨ e = CachitoError clone_failed
  ∨ e = CachitoError fetch_failed.
Proof.
  intros Hrun%fetch_source_run Hd.
  inversion Hrun as [e' H1|n e' H1 H2|n w1 H1 H2 H3|n w1 e' H1 H2 H3|n w1 r0 w5 H1 H2 H3 H4];
    subst.
  - apply repo_name_of_raw in H1. congruence.
  - apply mkdirs_raw in H2. congruence.
  - revert H3 Hd. unfold cache_state. destruct (os.path_exists w' _); [|done].
    destruct (os.open_r w' _) as [[|]|e'] eqn:E; try done.
    intros [= <-] Hd. apply open_r_raw in E. congruence.
  - destruct r0 as [[]|e']; simplify_eq/=. by eapply regenerated_domain.
Qed.

Lemma fetch_source_domain_errors_witness :
  CachitoError (checkout_failed "nope") = CachitoError (checkout_failed "nope")
  ∨ CachitoError (checkout_failed "nope") = CachitoError clone_failed
  ∨ CachitoError (checkout_failed "nope") = CachitoError fetch_failed.
Proof.
  apply (fetch_source_domain_errors ex_url "nope" ex_world
           (CachitoError (checkout_failed "nope")) (self_after ex_url "nope" ex_world)
           (world_after ex_url "nope" ex_world));
    vm_compute; reflexivity.
Defined.

(** ** Which archive is the seed *)




(** ** The archive holds the files of the revision *)

Section TrackedFiles.

Implicit Types (n m v : Node) (ch : list (string * Node)) (cs : list string)
  (k c arc : string).

Lemma alist_get_set_ne {A} k k' (x : A) (l : list (string * A)) :
  k ≠ k' → tempfile.alist_get k (tempfile.alist_set k' x l) = tempfile.alist_get k l.
Proof.
  intros Hne. induction l as [|[k0 y] l IH]; simpl.
  - by destruct (String.eqb_spec k k').
  - destruct (String.eqb_spec k' k0) as [->|Hk0]; simpl.
    + by destruct (String.eqb_spec k k0).
    + destruct (String.eqb_spec k k0); [done|apply IH].
Qed.

Lemma node_at_empty_dir cs : cs ≠ [] → tempfile.node_at cs (Dir []) = None.
Proof. by destruct cs. Qed.

(** Writing at a path leaves what stands at a path apart from it. *)
Lemma node_at_set_apart cs' v : ∀ cs n,
  apart cs cs' = true →
  tempfile.node_at cs (tempfile.node_set cs' v n) = tempfile.node_at cs n.
Proof.
  unfold apart. induction cs' as [|c' r' IH]; intros cs n Hap.
  - by destruct cs.
  - destruct cs as [|c r]; [done|].
    cbn [tempfile.node_set tempfile.node_at starts_with] in *.
    destruct (String.eqb_spec c c') as [->|Hne].
    + rewrite String.eqb_refl in Hap. cbn [andb] in Hap.
      rewrite alist_get_set, IH by done.
      destruct n as [d|ch|db]; cbn [tempfile.children_of tempfile.alist_get].
      * apply node_at_empty_dir. intros ->. by destruct r'.
      * destruct (tempfile.alist_get c' ch); [done|].
        apply node_at_empty_dir. intros ->. by destruct r'.
      * apply node_at_empty_dir. intros ->. by destruct r'.
    + rewrite alist_get_set_ne by done. by destruct n.
Qed.

(** After the files of a tree are written, each stands at its path. *)
Lemma checkout_tree_files old (tree : list (string * string)) n p d :
  tree_ok tree = true → (p, d) ∈ tree →
  tempfile.node_at (git.path_comps p) (git.checkout_tree old tree n) = Some (File d).
Proof.
  unfold git.checkout_tree.
  generalize (foldl (λ acc name, tempfile.node_del (git.path_comps name) acc) n old).
  clear n. induction tree as [|[q e] tree IH]; intros n Hok Hin; [by apply elem_of_nil in Hin|].
  cbn [tree_ok foldl] in *. apply andb_prop in Hok as [[Hq Hall]%andb_prop Hok].
  apply elem_of_cons in Hin as [[= -> ->]|Hin]; [|by apply IH].
  clear IH Hq Hok. cbn [fst snd].
  assert (Hkeep : ∀ m, tempfile.node_at (git.path_comps q)
                         (foldl (λ acc kv, tempfile.node_set (git.path_comps kv.1)
                                             (File kv.2) acc) m tree)
                       = tempfile.node_at (git.path_comps q) m).
  { induction tree as [|[q' e'] tree IH]; intros m; [done|].
    cbn [forallb foldl] in *. apply andb_prop in Hall as [Hap Hall].
    rewrite (IH Hall). by apply node_at_set_apart. }
  rewrite Hkeep. apply node_at_set.
Qed.

Lemma path_comps_member arc cs :
  arc_ok arc → Forall good_name cs →
  arc_ok (foldl (λ a c, a +:+ "/" +:+ c) arc cs).
Proof.
  intros Harc Hcs. revert arc Harc. induction Hcs as [|c cs Hc _ IH]; intros arc Harc; [done|].
  simpl. apply IH. by apply join_child.
Qed.

Lemma add_child_members ch arc k m x :
  tempfile.alist_get k ch = Some m →
  x ∈ tarfile.add m (os_path.join arc [k]) → x ∈ tarfile.add (Dir ch) arc.
Proof.
  intros H Hx. cbn [tarfile.add]. apply list_elem_of_further.
  induction ch as [|[k' c] r IH]; simpl in H; [done|].
  apply elem_of_app. destruct (String.eqb_spec k k') as [<-|_].
  - injection H as ->. by left.
  - right. by apply IH.
Qed.

(** A file of the tree is a member of what [TarFile.add] lists. *)
Lemma add_file_member cs : ∀ n arc d,
  arc_ok arc → Forall good_name cs →
  tempfile.node_at cs n = Some (File d) →
  (foldl (λ a c, a +:+ "/" +:+ c) arc cs, MFile d) ∈ tarfile.add n arc.
Proof.
  induction cs as [|c cs IH]; intros n arc d Harc Hcs.
  - simpl. intros [= ->]. apply list_elem_of_here.
  - apply Forall_cons in Hcs as [Hc Hcs]. cbn [tempfile.node_at foldl].
    destruct n as [|ch|]; [done| |done].
    destruct (tempfile.alist_get c ch) as [m|] eqn:Eg; [|done]. intros Hat.
    destruct (join_child arc c Harc Hc) as [Hj Hok].
    apply (add_child_members ch arc c m); [done|]. rewrite Hj. by apply IH.
Qed.

End TrackedFiles.

(** The tree once [head.reset] has run. *)
Lemma head_reset_files (repo : git.Repo) (w w' : World) :
  git.head_reset repo w = (Ok tt, w') →
  ∃ db c ch,
    git.db_at (git.working_dir repo) w = (Ok db, w) ∧ g_head db = Some c
    ∧ tempfile.read (git.working_dir repo) w' = (Ok (Some (Dir ch)), w')
    ∧ (tree_ok (c_tree c) = true →
       ∀ p d, (p, d) ∈ c_tree c →
              tempfile.node_at (git.path_comps p) (Dir ch) = Some (File d)).
Proof.
  unfold git.head_reset. st_unfold.
  destruct (git.db_at _ w) as [[db|e] w1] eqn:E; pose proof E as ->%db_at_frame; [|done].
  destruct (g_head db) as [c|] eqn:Eh; [|done].
  destruct (tempfile.read _ w) as [[n|e] w1] eqn:Er;
    pose proof Er as [-> [? ?]]%read_frame; [|done].
  intros Hwr%write_read. eexists db, c, _. split_and!; [done..|].
  intros Hok p d Hin.
  pose proof (checkout_tree_files (g_index db) (c_tree c) (default (Dir []) n) p d Hok Hin)
    as Hat.
  assert (Hc : ∃ c0 cs0, git.path_comps p = c0 :: cs0 ∧ c0 ≠ ".git").
  { clear -Hok Hin. induction (c_tree c) as [|[q e] t IH]; [by apply elem_of_nil in Hin|].
    cbn [tree_ok] in Hok. apply andb_prop in Hok as [[Hq _]%andb_prop Hok].
    apply elem_of_cons in Hin as [[= -> ->]|Hin]; [|by apply IH].
    destruct (git.path_comps q) as [|c0 cs0]; [done|]. exists c0, cs0. split; [done|].
    apply negb_true_iff in Hq. by apply String.eqb_neq in Hq. }
  destruct Hc as (c0 & cs0 & Hcs & Hne). rewrite Hcs in *.
  cbn [tempfile.node_at] in *. rewrite alist_get_set_ne by done.
  by destruct (git.checkout_tree _ _ _).
Qed.

(** After a cache miss, the archive a run of [fetch_source] that returns
    has written holds the files of the commit the reference names.  When
    the tracked paths of that commit are as Git keeps them (none empty or
    in [.git], no two at or below one another), every one of them is a
    member of the archive, under [app/] and with the content the commit
    gives it. *)
Theorem archive_holds_revision_files (u r : string) (w : World) (n : string) (w1 : World)
    v self' w' :
  repo_name_of u = Ok n → os.makedirs w (package_dir_of w n) = Ok w1 →
  cache_state w1 (archive_path_of w n r) = Miss →
  fetch_source (SCM_init u r, w) = (Ok v, (self', w')) →
  ∃ ms db c,
    os.open_r w' (archive_path_of w n r) = Ok (TarGz ms)
    ∧ ("app/.git", MGit db) ∈ ms
    ∧ tempfile.alist_get r (g_revs db) = Some c
    ∧ (tree_ok (c_tree c) = true →
       ∀ p d, (p, d) ∈ c_tree c → (member_of_path "app" p, MFile d) ∈ ms).
Proof.
  intros Hn Hmk Hc. rewrite (fetch_source_miss _ _ _ _ _ Hn Hmk Hc).
  intros (r0 & w5 & Hreg & Hres & [= -> ->])%(regenerate_run _ _ _ (archive_path_of w n r));
    [|done|apply archive_path_of_truthy|done].
  destruct r0 as [[]|e]; [|done]. cbn [ref url memoized] in Hreg.
  destruct (regenerated_start _ _ _ _ _ _ _ Hreg eq_refl) as (repo & w3 & _ & _ & Hfin).
  destruct (finished_ok _ _ _ _ _ Hfin) as (w4 & loc & src & Hreset & Hr & Hcd & Hread & ->).
  destruct (reset_head_db _ _ _ _ Hreset) as (db & c & Hdb & Hrev & Hdb').
  pose proof Hdb' as (ch & Hread' & Hgit)%db_at_dir.
  assert (src = Dir ch) as -> by congruence.
  eexists _, _, c. split_and!.
  - rewrite (open_r_ext (archived loc (tarfile.add (Dir ch) "app") w4)) by done.
    by apply archived_readable.
  - apply (add_git_member ch "app" ".git"). exact Hgit.
  - done.
  - intros Hok p d Hin.
    revert Hreset. unfold reset_head. st_unfold.
    destruct (git.commit repo r w3) as [[c'|e] w6] eqn:Ec; [|done].
    pose proof Ec as ->%commit_frame.
    assert (c' = c) as ->.
    { revert Ec. unfold git.commit. st_unfold. rewrite Hdb, Hrev. by intros [= ->]. }
    destruct (git.set_head_reference repo c w3) as [[[]|e] w7] eqn:Es; [|done].
    intros (db2 & c2 & ch2 & Hdb2 & Hh2 & Hread2 & Hfiles)%head_reset_files.
    assert (Dir ch2 = Dir ch) as [= ->] by congruence.
    assert (c2 = c) as ->.
    { revert Es. unfold git.set_head_reference. st_unfold. rewrite Hdb.
      intros Hw%set_db_written. rewrite Hw in Hdb2. injection Hdb2 as <-.
      cbn [g_head git.with_head] in Hh2. congruence. }
    apply (add_file_member (git.path_comps p) (Dir ch) "app" d app_arc_ok).
    + apply path_comps_good.
    + by apply Hfiles.
Qed.

Lemma archive_holds_revision_files_witness :
  ∃ ms db c,
    os.open_r (world_after ex_url "abc" ex_world) (archive_path_of ex_world "foo/bar" "abc")
    = Ok (TarGz ms)
    ∧ ("app/.git", MGit db) ∈ ms
    ∧ tempfile.alist_get "abc" (g_revs db) = Some c
    ∧ (tree_ok (c_tree c) = true →
       ∀ p d, (p, d) ∈ c_tree c → (member_of_path "app" p, MFile d) ∈ ms).
Proof.
  apply (archive_holds_revision_files ex_url "abc" ex_world "foo/bar" (ex_with_dirs ex_world)
           PyNone (self_after ex_url "abc" ex_world) (world_after ex_url "abc" ex_world));
    vm_compute; reflexivity.
Defined.

(** On the example, the files of [abc] are the members [app/README] and
    [app/src/main.py]. *)
Lemma example_archive_members :
  tree_ok (c_tree ex_commit_abc) = true
  ∧ member_of_path "app" "README" = "app/README"
  ∧ member_of_path "app" "src/main.py" = "app/src/main.py"
  ∧ ∃ ms, os.open_r ex_world_abc "/var/cachito/foo/bar/abc.tar.gz" = Ok (TarGz ms)
          ∧ ("app/README", MFile "first") ∈ ms
          ∧ ("app/src/main.py", MFile "print(1)") ∈ ms.
Proof.
  split_and!; [by vm_compute..|].
  eexists. split; [vm_compute; reflexivity|].
  split; repeat first [apply list_elem_of_here | apply list_elem_of_further].
Qed.

(** ** The remote a clone records *)

(** After a cache miss with no seed, the archive a run of [fetch_source]
    that returns has written records the URL of the object as the remote
    [origin] of the repository.  It is from there that a later update
    from this archive fetches. *)
Theorem cloned_archive_records_url (u r : string) (w : World) (n : string) (w1 : World)
    v self' w' :
  repo_name_of u = Ok n → os.makedirs w (package_dir_of w n) = Ok w1 →
  cache_state w1 (archive_path_of w n r) = Miss →
  find_previous (package_dir_of w n) w1 = (Ok None, w1) →
  fetch_source (SCM_init u r, w) = (Ok v, (self', w')) →
  ∃ ms db,
    os.open_r w' (archive_path_of w n r) = Ok (TarGz ms)
    ∧ ("app/.git", MGit db) ∈ ms
    ∧ g_origin db = Some u
    ∧ net_log w' = net_log w ++ [NetClone u].
Proof.
  intros Hn Hmk Hc Hnone. rewrite (fetch_source_miss _ _ _ _ _ Hn Hmk Hc).
  intros (r0 & w5 & Hreg & Hres & [= -> ->])%(regenerate_run _ _ _ (archive_path_of w n r));
    [|done|apply archive_path_of_truthy|done].
  destruct r0 as [[]|e]; [|done]. cbn [ref url memoized] in Hreg.
  destruct (makedirs_grown _ _ _ Hmk) as [_ (_ & Hlog & _) _ _ _].
  inversion Hreg as [e' H1|prev e' w2 Hf Ht H1|prev repo w2 e' w3 Hf Ht H1 H2
                     |prev repo w2 w3 r' w5' Hf Ht H1 H2 H3
                     |e' w2 Hno H1|repo w2 r' w5' Hno H1 H2]; subst; try congruence.
  destruct (finished_ok _ _ _ _ _ H2) as (w4 & loc & src & Hreset & Hr & Hcd & Hread & ->).
  destruct (reset_head_db _ _ _ _ Hreset) as (db & c & Hdb & Hrev & Hdb').
  pose proof Hdb' as (ch & Hread' & Hgit)%db_at_dir.
  assert (src = Dir ch) as -> by congruence.
  assert (Horigin : g_origin db = Some u).
  { revert H1 Hdb. unfold git.clone_from, git.log_net. st_unfold.
    destruct (remotes _ !! u) as [revs|]; [|done].
    destruct (tempfile.write _ _ _) as [[[]|e] w6] eqn:Ew; [|done].
    intros [= <- <-].
    change [(".git", GitDir ?d)] with (tempfile.alist_set ".git" (GitDir d) []) in Ew.
    apply db_at_written in Ew. cbn [git.working_dir os_path.join foldl] in *.
    rewrite Ew. by intros [= <-]. }
  eexists _, _. split_and!.
  - rewrite (open_r_ext (archived loc (tarfile.add (Dir ch) "app") w4)) by done.
    by apply archived_readable.
  - apply (add_git_member ch "app" ".git"). exact Hgit.
  - done.
  - apply clone_from_frame in H1. apply reset_head_frame in Hreset.
    change (net_log (with_tmp _ ?x)) with (net_log x).
    change (net_log (archived _ _ ?x)) with (net_log x).
    rewrite (wt_step_net_log Hreset), app_nil_r, (wt_step_net_log H1). simpl.
    by rewrite Hlog.
Qed.

Lemma cloned_archive_records_url_witness :
  ∃ ms db,
    os.open_r (world_after ex_url "abc" ex_world) (archive_path_of ex_world "foo/bar" "abc")
    = Ok (TarGz ms)
    ∧ ("app/.git", MGit db) ∈ ms
    ∧ g_origin db = Some ex_url
    ∧ net_log (world_after ex_url "abc" ex_world) = net_log ex_world ++ [NetClone ex_url].
Proof.
  apply (cloned_archive_records_url ex_url "abc" ex_world "foo/bar" (ex_with_dirs ex_world)
           PyNone (self_after ex_url "abc" ex_world) (world_after ex_url "abc" ex_world));
    vm_compute; reflexivity.
Defined.

(** ** A first request that succeeds *)

Section Progress.

Implicit Types (w : World) (p k : string) (ch : list (string * Node)) (cs : list string).









End Progress.



(** ** The archives directory *)

(** [archives_dir] touches nothing.  What it returns is an absolute path
    when the current directory is one, and the object keeps it: a later
    call returns the same path, whatever the current directory and the
    configuration have become. *)
Theorem archives_dir_outcome (u r : string) (w : World) res s w' :
  archives_dir (SCM_init u r, w) = (res, (s, w')) →
  w' = w
  ∧ ∃ a, res = Ok a
         ∧ (os_path.isabs (cwd w) = true → os_path.isabs a = true)
         ∧ ∀ w2, archives_dir (s, w2) = (Ok a, (s, w2)).
Proof.
  cbv [archives_dir memo bind get_self get_world set_self ret SCM_init _archives_dir fst snd].
  intros [= <- <- <-]. split; [done|]. eexists. split; [done|].
  set (a := os_path.abspath (cwd w) (cachito_sources_dir w)).
  assert (Ha : Str.truthy a = true).
  { unfold a, os_path.abspath, os_path.normpath.
    destruct (negb (Str.truthy _)); [done|]. cbv zeta.
    match goal with
    | |- context [if Str.truthy ?x then ?x else _] => by destruct (Str.truthy x) eqn:E
    end. }
  split.
  - intros Hcwd. unfold a, os_path.abspath.
    set (p := if os_path.isabs _ then _ else _).
    assert (Hp : os_path.isabs p = true).
    { unfold p. destruct (os_path.isabs (cachito_sources_dir w)) eqn:E; [done|].
      cbn [os_path.join foldl]. unfold os_path.join2.
      change (Str.startswith "/" (cachito_sources_dir w))
        with (os_path.isabs (cachito_sources_dir w)). rewrite E.
      destruct (cwd w) as [|y t] eqn:Ec; [done|].
      destruct (negb _ || _); rewrite isabs_app; done. }
    unfold os_path.normpath. destruct p as [|y t]; [done|]. cbn [Str.truthy negb].
    unfold os_path.isabs, Str.startswith in Hp. cbn [String.prefix] in Hp.
    destruct (Ascii.ascii_dec "/" y) as [<-|]; [|done].
    replace (Str.startswith "/" (String "/" t)) with true
      by (unfold Str.startswith; simpl; by destruct t).
    cbv zeta. unfold os_path.isabs, Str.startswith.
    destruct (_ && _); cbn [String.append Str.truthy String.prefix];
      (destruct (Ascii.ascii_dec "/" "/") as [_|?]; [|done]); [done|].
    match goal with |- String.prefix "" ?x = true => by destruct x end.
  - intros w2. cbv [set_archives_dir _archives_dir]. fold a. by rewrite Ha.
Qed.

Lemma archives_dir_outcome_witness :
  ex_world = ex_world
  ∧ ∃ a, Ok "/var/cachito" = Ok a
         ∧ (os_path.isabs (cwd ex_world) = true → os_path.isabs a = true)
         ∧ ∀ w2, archives_dir (set_archives_dir (Some "/var/cachito") (SCM_init ex_url "abc"), w2)
                 = (Ok a, (set_archives_dir (Some "/var/cachito") (SCM_init ex_url "abc"), w2)).
Proof.
  apply (archives_dir_outcome ex_url "abc" ex_world (Ok "/var/cachito")
           (set_archives_dir (Some "/var/cachito") (SCM_init ex_url "abc")) ex_world).
  vm_compute. reflexivity.
Defined.

(** ** A later request that succeeds *)

Section UpdateProgress.

Implicit Types (w : World) (p : string).




End UpdateProgress.



(** ** A seed that is not an archive of the cache *)




